(** * Retrieval and hybrid scoring of the RAG pipeline

    A shallow embedding of [main.py], [vector_db.py], [data_loader.py] and
    the scan loop of [viz_utils.py], with the properties of the retrieval
    subsystem proved about it.

    Conventions of the embedding.
    - A Python [str] is a [string] whose characters are code points below
      256; [lower], [split] and [strip] follow Python on that range.
    - A Python [float] score is an exact rational of [Q]; rounding is
      outside the model.
    - A payload is a dictionary from field name to string, as [_upsert]
      writes it; a field can be absent. The data of an event is a record of
      optional fields ([None] for an absent key), a question and a source
      id being strings and top_k an integer; null and ill-typed values are
      outside the model.
    - Exceptions are values of [exn]; every function that can raise returns
      in the monad [M], which also threads the persistent Qdrant storage
      and logs the calls to external services in order.
    - The Qdrant client, the embedding service, the PDF reader, the
      sentence splitter and the LLM are libraries or services outside the
      repository: the client is modelled in [Module Qdrant] from its
      documented behaviour, the others are parameters. *)

From Stdlib Require Import Ascii String NArith ZArith QArith Lqa DecimalString.
From stdpp Require Import base list strings gmap sorting.

(** ** Python string operations *)

Module Py.

Definition ord (c : ascii) : N := Ascii.N_of_ascii c.

(** [str.isspace] on one character. *)
Definition isspace (c : ascii) : bool :=
  let n := ord c in
  (((9 <=? n) && (n <=? 13)) || ((28 <=? n) && (n <=? 32))
   || (n =? 133) || (n =? 160))%N.

(** [str.lower] on one character. *)
Definition lower_char (c : ascii) : ascii :=
  let n := ord c in
  if (((65 <=? n) && (n <=? 90))
      || ((192 <=? n) && (n <=? 222) && negb (n =? 215)))%N
  then Ascii.ascii_of_N (n + 32)
  else c.

Fixpoint lower (s : string) : string :=
  match s with
  | EmptyString => EmptyString
  | String c s' => String (lower_char c) (lower s')
  end.

(** [s.split()]: maximal runs of non-whitespace characters, in order.
    [cur] is the run read so far. *)
Fixpoint split_go (cur : string) (s : string) : list string :=
  match s with
  | EmptyString => if decide (cur = EmptyString) then [] else [cur]
  | String c s' =>
      if isspace c
      then (if decide (cur = EmptyString) then [] else [cur]) ++ split_go EmptyString s'
      else split_go (cur +:+ String c EmptyString) s'
  end.

Definition split (s : string) : list string := split_go EmptyString s.

Fixpoint lstrip (s : string) : string :=
  match s with
  | EmptyString => EmptyString
  | String c s' => if isspace c then lstrip s' else s
  end.

Definition rstrip (s : string) : string := String.rev (lstrip (String.rev s)).

(** [s.strip()]. *)
Definition strip (s : string) : string := rstrip (lstrip s).

(** The string has whitespace only (or is empty). *)
Fixpoint blank (s : string) : bool :=
  match s with
  | EmptyString => true
  | String c s' => isspace c && blank s'
  end.

Definition nl : string := String (Ascii.ascii_of_N 10) EmptyString.

(** [sep.join(l)]. *)
Fixpoint join (sep : string) (l : list string) : string :=
  match l with
  | [] => EmptyString
  | [x] => x
  | x :: l' => x +:+ sep +:+ join sep l'
  end.

(** [t in s] for strings. *)
Fixpoint contains (t s : string) : bool :=
  String.prefix t s
  || match s with
     | EmptyString => false
     | String _ s' => contains t s'
     end.

(** [l[:k]] for an integer [k], negative [k] counting from the end. *)
Definition slice_to {A} (l : list A) (k : Z) : list A :=
  if (0 <=? k)%Z then take (Z.to_nat k) l
  else take (length l - Z.to_nat (- k)) l.

(** [str(i)] for a non-negative integer. *)
Definition str_of_nat (n : nat) : string :=
  NilEmpty.string_of_uint (Nat.to_uint n).

End Py.

(** ** Exceptions, external calls and the monad of the pipeline *)

(** A UUID is its 128-bit value; an embedding is a vector of numbers. *)
Abbreviation uuid := N.
Abbreviation embedding := (list Q).

Inductive exn : Type :=
  | ValueError (msg : string)
  | IndexError
  | KeyError (key : string)
  | RemoteError (msg : string).

Inductive store_op : Type :=
  | OpOpen | OpCollectionExists | OpCreateCollection | OpDeleteCollection
  | OpUpsert | OpQueryPoints | OpScroll | OpDelete | OpClose.

(** A call that leaves the process: to the embedding service, to the Qdrant
    storage, to the PDF reader or to the LLM. *)
Inductive call : Type :=
  | CallEmbeddings (model : string) (input : list string)
  | CallStore (op : store_op)
  | CallReader (path : string)
  | CallInfer (prompt : string).

(** ** Sorting *)

(** [list.sort(key=..., reverse=True)]: descending by key, stable. An
    element is inserted in front of the first element whose key is not
    greater, so elements with equal keys keep their order. *)
Section sort_desc.
Context {A : Type} (key : A → Q).

Fixpoint insert_desc (x : A) (l : list A) : list A :=
  match l with
  | [] => [x]
  | y :: l' =>
      if Qle_bool (key y) (key x) then x :: y :: l'
      else y :: insert_desc x l'
  end.

Definition sort_desc (l : list A) : list A := foldr insert_desc [] l.

(** Descending order of keys. *)
Definition desc (a b : A) : Prop := (key b <= key a)%Q.

(** The elements of one key value, in order. *)
Definition with_key (s : Q) (l : list A) : list A :=
  filter (λ x, Qeq_bool (key x) s = true) l.
End sort_desc.

(** Strictly ascending ids. *)
Definition ascending {V : Type} (l : list (uuid * V)) : Prop :=
  StronglySorted (λ a b, (a.1 < b.1)%N) l.

(** ** The Qdrant client

    Modelled from the client's documented behaviour: a storage holds named
    collections; a collection has a vector size, a distance and points
    keyed by id; [upsert] overwrites by id; [query_points] returns the
    points whose score reaches the threshold, best first; [scroll] pages
    through the points in id order and returns the id to continue from. *)

Module Qdrant.

Inductive Distance : Type := COSINE | EUCLID | DOT | MANHATTAN.

Record VectorParams : Type :=
  { size : nat; distance : Distance }.

(** A point as it is upserted ([PointStruct]) and as [scroll] returns it
    ([Record]; [vector] is [None] under [with_vectors=False]). *)
Record point : Type :=
  { id : uuid;
    vector : option embedding;
    payload : option (gmap string string) }.

Record ScoredPoint : Type :=
  { hit : point; score : Q }.

Record collection : Type :=
  { config : VectorParams;
    points : gmap uuid (embedding * option (gmap string string)) }.

Abbreviation client := (gmap string collection).

(** [Filter(must=[FieldCondition(key, MatchValue(value))])]. *)
Record Filter : Type :=
  { key : string; value : string }.

Definition matches (f : option Filter) (pl : option (gmap string string)) : bool :=
  match f with
  | None => true
  | Some f => bool_decide (pl ≫= (λ d, d !! key f) = Some (value f))
  end.

Definition collection_exists (db : client) (name : string) : bool :=
  bool_decide (is_Some (db !! name)).

Definition create_collection (db : client) (name : string) (cfg : VectorParams)
  : exn + client :=
  match db !! name with
  | Some _ => inl (ValueError "Collection already exists")
  | None => inr (<[name := {| config := cfg; points := ∅ |}]> db)
  end.

Definition delete_collection (db : client) (name : string) : client :=
  delete name db.

Definition get_collection (db : client) (name : string) : exn + collection :=
  match db !! name with
  | Some c => inr c
  | None => inl (ValueError "Collection not found")
  end.

Definition upsert_point (pts : gmap uuid (embedding * option (gmap string string)))
    (p : point) : gmap uuid (embedding * option (gmap string string)) :=
  <[id p := (default [] (vector p), payload p)]> pts.

Definition upsert (db : client) (name : string) (ps : list point) : exn + client :=
  match get_collection db name with
  | inl e => inl e
  | inr c =>
      inr (<[name := {| config := config c;
                        points := foldl upsert_point (points c) ps |}]> db)
  end.

(** The points of a collection in id order. *)
Definition id_le {V : Type} (a b : uuid * V) : Prop := (a.1 ≤ b.1)%N.

#[global] Instance id_le_dec {V : Type} (a b : uuid * V) : Decision (id_le a b).
Proof. unfold id_le. apply _. Defined.

Definition listing (c : collection) : list (uuid * (embedding * option (gmap string string))) :=
  merge_sort id_le (map_to_list (points c)).

Definition to_point (with_vectors : bool)
    (e : uuid * (embedding * option (gmap string string))) : point :=
  {| id := e.1;
     vector := if with_vectors then Some e.2.1 else None;
     payload := e.2.2 |}.

(** [scroll] resumes at the point whose id is [offset]. *)
Definition from_offset {V : Type} (offset : option uuid) (e : uuid * V) : bool :=
  match offset with
  | None => true
  | Some o => (o <=? e.1)%N
  end.

Definition scroll (db : client) (name : string) (limit : nat)
    (with_vectors : bool) (offset : option uuid)
  : exn + (list point * option uuid) :=
  match get_collection db name with
  | inl e => inl e
  | inr c =>
      let rest := filter (λ e, from_offset offset e = true) (listing c) in
      inr (to_point with_vectors <$> take limit rest, fst <$> rest !! limit)
  end.

Definition delete_points (db : client) (name : string) (f : Filter) : exn + client :=
  match get_collection db name with
  | inl e => inl e
  | inr c =>
      inr (<[name := {| config := config c;
                        points := filter (λ e, matches (Some f) e.2.2 = false) (points c) |}]> db)
  end.

Section query.
(** The similarity of the collection's distance, a function of the
    library (cosine similarity is not rational-valued in general). *)
Context (similarity : embedding → embedding → Q).

Definition query_points (db : client) (name : string) (query : embedding)
    (limit : nat) (query_filter : option Filter) (score_threshold : Q)
  : exn + list ScoredPoint :=
  match get_collection db name with
  | inl e => inl e
  | inr c =>
      let scored :=
        (λ e, {| hit := to_point false e; score := similarity query e.2.1 |})
          <$> filter (λ e, matches query_filter e.2.2 = true) (listing c) in
      inr (take limit
             (sort_desc score
                (filter (λ p, Qle_bool score_threshold (score p) = true) scored)))
  end.
End query.

End Qdrant.

(** ** The monad

    A computation starts from the persistent storage and ends with the
    calls it made (in order), the storage it left and either the exception
    it raised or its value. *)

Record outcome (A : Type) : Type :=
  Outcome { calls : list call; store : Qdrant.client; value : exn + A }.
Arguments Outcome {A} _ _ _.
Arguments calls {A} _.
Arguments store {A} _.
Arguments value {A} _.

Definition M (A : Type) : Type := Qdrant.client → outcome A.

#[global] Instance M_ret : MRet M := λ A a db, Outcome [] db (inr a).

#[global] Instance M_bind : MBind M := λ A B f m db,
  let o := m db in
  match value o with
  | inl e => Outcome (calls o) (store o) (inl e)
  | inr a =>
      let o' := f a (store o) in
      Outcome (calls o ++ calls o') (store o') (value o')
  end.

Definition raise {A : Type} (e : exn) : M A := λ db, Outcome [] db (inl e).

(** [try: m finally: fin]. *)
Definition finally {A : Type} (m : M A) (fin : M ()) : M A := λ db,
  let o := m db in
  let o' := fin (store o) in
  Outcome (calls o ++ calls o') (store o')
    match value o' with
    | inl e => inl e
    | inr _ => value o
    end.

(** A call of a client method: logged, then run on the storage. *)
Definition store_call {A : Type} (op : store_op)
    (f : Qdrant.client → exn + (A * Qdrant.client)) : M A := λ db,
  match f db with
  | inl e => Outcome [CallStore op] db (inl e)
  | inr (a, db') => Outcome [CallStore op] db' (inr a)
  end.

(** A call of an outside service: logged, the storage untouched. *)
Definition external {A : Type} (c : call) (r : exn + A) : M A :=
  λ db, Outcome [c] db r.

Definition lift {A : Type} (r : exn + A) : M A :=
  match r with
  | inl e => raise e
  | inr a => mret a
  end.

(** A comprehension whose body can raise. *)
Fixpoint try_map {A B : Type} (f : A → exn + B) (l : list A) : exn + list B :=
  match l with
  | [] => inr []
  | x :: l' =>
      match f x with
      | inl e => inl e
      | inr y =>
          match try_map f l' with
          | inl e => inl e
          | inr ys => inr (y :: ys)
          end
      end
  end.

(** The services outside the process. A response is whatever the service
    sends: an error, or data of any length. *)
Record services : Type :=
  { embeddings_create : string → list string → exn + list embedding;
    load_data : string → exn + list (option string);
    infer : string → exn + string }.

(** ** custom_types.py *)

Record RAGChunkAndSrc : Type :=
  { chunks : list string; source_id : string }.

Record RAGUpsertResult : Type :=
  { inngested : nat }.

Record RAGSearchResult : Type :=
  { contexts : list string; sources : list string }.

Record RAGQueryResult : Type :=
  { answer : string; num_contexts : nat; query_sources : list string }.

(** An entry of ["results"] in the answer of [search_vectors]. *)
Record candidate : Type :=
  { text : string; source : string; score : Q }.

Record search_output : Type :=
  { out_context : list string;
    out_sources : list string;
    results : list candidate }.

(** The data of the two trigger events; [None] is an absent key. *)
Record ingest_event : Type :=
  { ev_pdf_path : option string; ev_source_id : option string }.

Record query_event : Type :=
  { ev_question : option string; ev_top_k : option Z }.

Section pipeline.
(** Library functions: [uuid.uuid5], the similarity Qdrant computes for
    the collection, and [SentenceSplitter.split_text] with
    [chunk_size = 1000], [chunk_overlap = 200]. *)
Context (uuid5 : uuid → string → uuid).
Context (similarity : embedding → embedding → Q).
Context (split_text : string → list string).

(** ** vector_db.py *)

Record QdrantStorage : Type :=
  { collection : string; dim : nat }.

Definition client_collection_exists (name : string) : M bool :=
  store_call OpCollectionExists
    (λ db, inr (Qdrant.collection_exists db name, db)).

Definition client_create_collection (name : string) (cfg : Qdrant.VectorParams) : M () :=
  store_call OpCreateCollection
    (λ db, match Qdrant.create_collection db name cfg with
           | inl e => inl e
           | inr db' => inr ((), db')
           end).

Definition client_delete_collection (name : string) : M () :=
  store_call OpDeleteCollection
    (λ db, inr ((), Qdrant.delete_collection db name)).

Definition client_upsert (name : string) (ps : list Qdrant.point) : M () :=
  store_call OpUpsert
    (λ db, match Qdrant.upsert db name ps with
           | inl e => inl e
           | inr db' => inr ((), db')
           end).

Definition client_query_points (name : string) (query : embedding) (limit : nat)
    (query_filter : option Qdrant.Filter) (score_threshold : Q)
  : M (list Qdrant.ScoredPoint) :=
  store_call OpQueryPoints
    (λ db, match Qdrant.query_points similarity db name query limit
                   query_filter score_threshold with
           | inl e => inl e
           | inr ps => inr (ps, db)
           end).

Definition client_scroll (name : string) (limit : nat) (with_vectors : bool)
    (offset : option uuid) : M (list Qdrant.point * option uuid) :=
  store_call OpScroll
    (λ db, match Qdrant.scroll db name limit with_vectors offset with
           | inl e => inl e
           | inr r => inr (r, db)
           end).

Definition client_delete (name : string) (f : Qdrant.Filter) : M () :=
  store_call OpDelete
    (λ db, match Qdrant.delete_points db name f with
           | inl e => inl e
           | inr db' => inr ((), db')
           end).

(** [QdrantStorage.__init__]. *)
Definition QdrantStorage_init (collection : string) (dim : nat) : M QdrantStorage :=
  _ ← store_call OpOpen (λ db, inr ((), db));
  ex ← client_collection_exists collection;
  _ ← (if negb ex
       then client_create_collection collection
              {| Qdrant.size := dim; Qdrant.distance := Qdrant.COSINE |}
       else mret ());
  mret {| collection := collection; dim := dim |}.

Definition recreate_collection (self : QdrantStorage) : M () :=
  ex ← client_collection_exists (collection self);
  _ ← (if ex : bool then client_delete_collection (collection self) else mret ());
  client_create_collection (collection self)
    {| Qdrant.size := dim self; Qdrant.distance := Qdrant.COSINE |}.

Definition close : M () := store_call OpClose (λ db, inr ((), db)).

(** [with QdrantStorage() as store: body]. *)
Definition with_QdrantStorage {A : Type} (body : QdrantStorage → M A) : M A :=
  self ← QdrantStorage_init "docs_2560" 2560;
  finally (body self) close.

(** [[PointStruct(id=ids[i], vector=vectors[i], payload=payloads[i])
     for i in range(len(ids))]]. *)
Definition make_points (ids : list uuid) (vectors : list embedding)
    (payloads : list (gmap string string)) : exn + list Qdrant.point :=
  try_map
    (λ i, match ids !! i, vectors !! i, payloads !! i with
          | Some id, Some v, Some pl =>
              inr {| Qdrant.id := id; Qdrant.vector := Some v;
                     Qdrant.payload := Some pl |}
          | _, _, _ => inl IndexError
          end)
    (seq 0 (length ids)).

Definition upsert_vectors (self : QdrantStorage) (ids : list uuid)
    (vectors : list embedding) (payloads : list (gmap string string)) : M () :=
  points ← lift (make_points ids vectors payloads);
  client_upsert (collection self) points.

Definition truthy (s : string) : bool := negb (bool_decide (s = "")).

(** The loop of [search_vectors] over the points found. *)
Definition collect_results (points : list Qdrant.ScoredPoint) : list candidate :=
  foldl (λ results p,
           let payload := default ∅ (Qdrant.payload (Qdrant.hit p)) in
           match payload !! "text" with
           | Some text =>
               if truthy text
               then results ++ [ {| text := text;
                                    source := default "" (payload !! "source_id");
                                    score := Qdrant.score p |} ]
               else results
           | None => results
           end) [] points.

(** [query_filter] of [search_vectors]: set when [source_id] is truthy. *)
Definition source_filter (source_id : option string) : option Qdrant.Filter :=
  match source_id with
  | Some s => if truthy s
              then Some {| Qdrant.key := "source_id"; Qdrant.value := s |}
              else None
  | None => None
  end.

Definition search_vectors (self : QdrantStorage) (query_vector : embedding)
    (top_k : nat) (source_id : option string) (score_threshold : Q)
  : M search_output :=
  let query_filter := source_filter source_id in
  points ← client_query_points (collection self) query_vector top_k
             query_filter score_threshold;
  let results := collect_results points in
  mret {| out_context := text <$> results;
          out_sources := elements (list_to_set (source <$> results) : gset string);
          results := results |}.

Definition delete_source (self : QdrantStorage) (source_id : string) : M () :=
  client_delete (collection self)
    {| Qdrant.key := "source_id"; Qdrant.value := source_id |}.

(** The body of the [for p in batch] loop of [list_sources]. *)
Definition add_source (sources : gset string) (p : Qdrant.point) : gset string :=
  let payload := default ∅ (Qdrant.payload p) in
  match payload !! "source_id" with
  | Some s => if truthy s then sources ∪ {[ s ]} else sources
  | None => sources
  end.

(** The [while True] loop of [list_sources]; [None] when the loop has
    not left after [fuel] rounds. *)
Fixpoint list_sources_loop (self : QdrantStorage) (fuel : nat)
    (sources : gset string) (next_offset : option uuid) : M (option (gset string)) :=
  match fuel with
  | O => mret None
  | S fuel' =>
      r ← client_scroll (collection self) 100 false next_offset;
      let sources := foldl add_source sources r.1 in
      match r.2 with
      | None => mret (Some sources)
      | Some o => list_sources_loop self fuel' sources (Some o)
      end
  end.

Definition list_sources (self : QdrantStorage) (fuel : nat) : M (option (list string)) :=
  r ← list_sources_loop self fuel ∅ None;
  mret (merge_sort String.le <$> (elements <$> r)).

(** ** viz_utils.py: the scan of [get_visualization_data] *)

Fixpoint scan_loop (self : QdrantStorage) (fuel : nat)
    (points : list Qdrant.point) (next_offset : option uuid)
  : M (option (list Qdrant.point)) :=
  match fuel with
  | O => mret None
  | S fuel' =>
      r ← client_scroll (collection self) 100 true next_offset;
      let points := points ++ r.1 in
      match r.2 with
      | None => mret (Some points)
      | Some o => scan_loop self fuel' points (Some o)
      end
  end.

Definition get_visualization_points (fuel : nat) : M (option (list Qdrant.point)) :=
  with_QdrantStorage (λ store, scan_loop store fuel [] None).

(** ** data_loader.py *)

Definition EMBED_MODEL : string := "qwen/qwen3-embedding-4b".
Definition EMBED_DIM : nat := 2560.

(** [[d.text for d in docs if getattr(d, 'text', None)]]. *)
Definition kept_texts (docs : list (option string)) : list string :=
  omap (λ d : option string,
          match d with
          | Some t => if truthy t then Some t else None
          | None => None
          end) docs.

Definition load_and_chunk_pdf (svc : services) (path : string) : M (list string) :=
  docs ← external (CallReader path) (load_data svc path);
  let texts := kept_texts docs in
  if bool_decide (texts = []) || forallb (λ t, negb (truthy (Py.strip t))) texts
  then raise (ValueError ("No text extracted from " +:+ path
                          +:+ ". The PDF might be a scanned image or empty."))
  else mret (concat (split_text <$> texts)).

Definition embed_texts (svc : services) (texts : list string) : M (list embedding) :=
  external (CallEmbeddings EMBED_MODEL texts)
    (embeddings_create svc EMBED_MODEL texts).

(** ** main.py *)

(** [uuid.NAMESPACE_URL], 6ba7b811-9dad-11d1-80b4-00c04fd430c8. *)
Definition NAMESPACE_URL : uuid := 0x6ba7b8119dad11d180b400c04fd430c8%N.

(** The id of chunk [i] of a source. *)
Definition record_id (source_id : string) (i : nat) : uuid :=
  uuid5 NAMESPACE_URL (source_id +:+ ":" +:+ Py.str_of_nat i).

(** [[str(uuid5(NAMESPACE_URL, f"{source_id}:{i}")) for i in range(len(chunks))]]. *)
Definition record_ids (source_id : string) (chunks : list string) : list uuid :=
  record_id source_id <$> seq 0 (length chunks).

(** [[{"source_id": source_id, "text": chunks[i]} for i in range(len(chunks))]]. *)
Definition record_payloads (source_id : string) (chunks : list string)
  : list (gmap string string) :=
  omap (λ i, (λ c, {[ "source_id" := source_id; "text" := c ]}) <$> chunks !! i)
    (seq 0 (length chunks)).

Definition _load (svc : services) (ev : ingest_event) : M RAGChunkAndSrc :=
  pdf_path ← lift (match ev_pdf_path ev with
                   | Some p => inr p
                   | None => inl (KeyError "pdf_path")
                   end);
  let source_id := default pdf_path (ev_source_id ev) in
  chunks ← load_and_chunk_pdf svc pdf_path;
  mret {| chunks := chunks; source_id := source_id |}.

Definition _upsert (svc : services) (chunks_and_src : RAGChunkAndSrc) : M RAGUpsertResult :=
  let chunks := chunks chunks_and_src in
  let source_id := source_id chunks_and_src in
  vecs ← embed_texts svc chunks;
  let ids := record_ids source_id chunks in
  let payloads := record_payloads source_id chunks in
  _ ← with_QdrantStorage (λ store, upsert_vectors store ids vecs payloads);
  mret {| inngested := length chunks |}.

Definition rag_inngest_pdf (svc : services) (ev : ingest_event) : M RAGUpsertResult :=
  chunks_and_src ← _load svc ev;
  _upsert svc chunks_and_src.

(** The set of terms of a question. *)
Definition terms_of (question : string) : gset string :=
  list_to_set (filter (λ t, 3 ≤ String.length t) (Py.split (Py.lower question))).

(** [sum(1 for term in terms if term in source_lower)]. *)
Definition count_matches (terms : gset string) (source_lower : string) : nat :=
  size (filter (λ term, Py.contains term source_lower = true) terms).

(** The body of the [for r in results] loop of [_search]. *)
Definition boost (terms : gset string) (r : candidate) : candidate :=
  let source_lower := Py.lower (source r) in
  let matches := count_matches terms source_lower in
  if decide (0 < matches)
  then {| text := text r; source := source r;
          score := (score r + (0.5 + inject_Z (Z.of_nat matches) * 0.1))%Q |}
  else r.

(** The candidates of [_search] after the loop and the sort. *)
Definition rescored (question : string) (results : list candidate) : list candidate :=
  boost (terms_of question) <$> results.

Definition ranked (question : string) (results : list candidate) : list candidate :=
  sort_desc score (rescored question results).

(** What [_search] makes of the candidates of the store. *)
Definition retrieval (question : string) (top_k : Z) (results : list candidate)
  : RAGSearchResult :=
  let top_results := Py.slice_to (ranked question results) top_k in
  {| contexts := text <$> top_results;
     sources := elements (list_to_set (source <$> top_results) : gset string) |}.

Definition _search (svc : services) (question : string) (top_k : Z) : M RAGSearchResult :=
  vecs ← embed_texts svc [question];
  query_vec ← lift (match vecs !! 0 with
                    | Some v => inr v
                    | None => inl IndexError
                    end);
  raw_found ← with_QdrantStorage
                (λ store, search_vectors store query_vec 500 None 0.1%Q);
  mret (retrieval question top_k (results raw_found)).

Definition rag_query_pdf_ai (svc : services) (ev : query_event) : M RAGQueryResult :=
  match ev_question ev with
  | Some question =>
      if truthy question then
        let top_k := default 15%Z (ev_top_k ev) in
        found ← _search svc question top_k;
        let context_block :=
          Py.join (Py.nl +:+ Py.nl) ((λ c, "- " +:+ c) <$> contexts found) in
        let user_content :=
          "use the following context to answer the question." +:+ Py.nl +:+ Py.nl
          +:+ "context:" +:+ Py.nl +:+ context_block +:+ Py.nl +:+ Py.nl
          +:+ "question: " +:+ question +:+ Py.nl +:+ Py.nl
          +:+ "Answer consisely using the context above" in
        res ← external (CallInfer user_content) (infer svc user_content);
        mret {| answer := Py.strip res;
                num_contexts := length (contexts found);
                query_sources := sources found |}
      else raise (ValueError "Missing 'question' in event data. Please provide a question to query.")
  | None => raise (ValueError "Missing 'question' in event data. Please provide a question to query.")
  end.

End pipeline.

(** ** Auxiliary definitions and example data *)

(** No character of the string is whitespace. *)
Fixpoint no_space (s : string) : bool :=
  match s with
  | EmptyString => true
  | String c s' => negb (Py.isspace c) && no_space s'
  end.


Definition mismatched_db : Qdrant.client :=
  {[ "docs_2560" :=
       {| Qdrant.config := {| Qdrant.size := 3; Qdrant.distance := Qdrant.COSINE |};
          Qdrant.points := ∅ |} ]}.

(** The points of a collection of the storage; none when it is absent. *)
Definition collection_points (db : Qdrant.client) (name : string)
  : gmap uuid (embedding * option (gmap string string)) :=
  match db !! name with
  | Some c => Qdrant.points c
  | None => ∅
  end.

(** The storage once the store has been opened on it. *)
Definition opened (db : Qdrant.client) : Qdrant.client :=
  store (QdrantStorage_init "docs_2560" 2560 db).

(** What one point contributes to the answer of [search_vectors]. *)
Definition candidate_of (p : Qdrant.ScoredPoint) : option candidate :=
  match Qdrant.payload (Qdrant.hit p) ≫= (λ d, d !! "text") with
  | Some t =>
      if bool_decide (t = "") then None
      else Some {| text := t;
                   source := default "" (Qdrant.payload (Qdrant.hit p)
                                           ≫= (λ d, d !! "source_id"));
                   score := Qdrant.score p |}
  | None => None
  end.

(** A similarity for the examples: the dot product. *)
Fixpoint dot (u v : embedding) : Q :=
  match u, v with
  | x :: u', y :: v' => (x * y + dot u' v')%Q
  | _, _ => 0%Q
  end.

Definition textless_db : Qdrant.client :=
  {[ "docs_2560" :=
       {| Qdrant.config := {| Qdrant.size := 1; Qdrant.distance := Qdrant.COSINE |};
          Qdrant.points :=
            {[ 1%N := ([1%Q], Some {[ "source_id" := "a.pdf"; "text" := "alpha" ]});
               2%N := ([1%Q], Some {[ "source_id" := "b.pdf" ]});
               3%N := ([1%Q], Some {[ "text" := "gamma" ]});
               4%N := ([1%Q], Some {[ "source_id" := "d.pdf"; "text" := "" ]}) ]} |} ]}.

Definition docs_store : QdrantStorage := {| collection := "docs_2560"; dim := 2560 |}.

(** An embedding service that answers with one vector per input. *)
Definition unit_embeddings : services :=
  {| embeddings_create := λ _ input, inr ((λ _, [1%Q]) <$> input);
     load_data := λ _, inr [];
     infer := λ _, inr "" |}.

(** A stand-in for [uuid.uuid5] in the examples: a polynomial digest of
    the name, offset by the namespace. *)
Fixpoint digest (h : N) (s : string) : N :=
  match s with
  | EmptyString => h
  | String c s' => digest (h * 31 + Py.ord c)%N s'
  end.

Definition digest_uuid5 (ns : uuid) (name : string) : uuid := digest (ns mod 1000)%N name.

(** A reader that finds two pages without words, as for a scanned PDF. *)
Definition scanned_pdf : services :=
  {| embeddings_create := λ _ input, inr ((λ _, [1%Q]) <$> input);
     load_data := λ _, inr [Some "   "; None; Some ""];
     infer := λ _, inr "" |}.


(** The rest of the collection from an offset on. *)
Definition rest_from (offset : option uuid) (c : Qdrant.collection)
  : list (uuid * (embedding * option (gmap string string))) :=
  filter (λ e, Qdrant.from_offset offset e = true) (Qdrant.listing c).

(** The number of pages of [n] records: one page at least. *)
Definition pages (n : nat) : nat := S ((n - 1) / 100).

(** A collection of [n] records with scattered ids, from three sources. *)
Definition library_points (n : nat)
  : gmap uuid (embedding * option (gmap string string)) :=
  list_to_map
    ((λ i, (N.of_nat (i * 37 mod 1009),
            ([inject_Z (Z.of_nat i)],
             Some {[ "source_id" := "doc" +:+ Py.str_of_nat (i mod 3) +:+ ".pdf";
                     "text" := "chunk " +:+ Py.str_of_nat i ]})))
       <$> seq 0 n).

Definition library (n : nat) : Qdrant.collection :=
  {| Qdrant.config := {| Qdrant.size := 1; Qdrant.distance := Qdrant.COSINE |};
     Qdrant.points := library_points n |}.

Definition library_db (n : nat) : Qdrant.client := {[ "docs_2560" := library n ]}.

(** ** streamlit_app.py: the source management *)

(** [get_current_sources]: the sources of the store, the empty list when
    the storage raises. *)
Definition get_current_sources (fuel : nat) : M (option (list string)) := λ db,
  let o := with_QdrantStorage (λ store, list_sources store fuel) db in
  Outcome (calls o) (store o)
    (inr match value o with
         | inl _ => Some []
         | inr r => r
         end).

(** The "Delete Source" button: under [if to_delete:], the deletion
    inside [with QdrantStorage() as store], an exception of which is
    caught and shown. *)
Definition delete_selected (to_delete : string) : M () := λ db,
  if truthy to_delete
  then let o := with_QdrantStorage (λ store, delete_source store to_delete) db in
       Outcome (calls o) (store o) (inr ())
  else (mret () : M ()) db.

(** A source named by a record of a collection. *)
Definition is_source (pts : gmap uuid (embedding * option (gmap string string)))
    (s : string) : Prop :=
  ∃ k v pl, pts !! k = Some (v, Some pl) ∧ pl !! "source_id" = Some s ∧ s ≠ "".

(** ** viz_utils.py: the table of [get_visualization_data] *)

(** A row of [metadata], a row of the DataFrame before the coordinates
    are added. *)
Record viz_row : Type :=
  { row_source : string; row_text : string; row_type : string; row_size : nat }.

(** [payload.get("text", "")[:100] + "..." if payload.get("text") else "No text"]. *)
Definition text_preview (payload : gmap string string) : string :=
  match payload !! "text" with
  | Some t => if truthy t then String.substring 0 100 t +:+ "..." else "No text"
  | None => "No text"
  end.

(** The body of the [for p in points] loop. *)
Definition document_row (p : Qdrant.point) : viz_row :=
  let payload := default ∅ (Qdrant.payload p) in
  {| row_source := default "Unknown" (payload !! "source_id");
     row_text := text_preview payload;
     row_type := "Document";
     row_size := 5 |}.

Definition query_row (query_text : option string) : viz_row :=
  {| row_source := "User Query";
     row_text := match query_text with
                 | Some t => if truthy t then t else "Query"
                 | None => "Query"
                 end;
     row_type := "Query";
     row_size := 12 |}.

(** [vectors] and [metadata] as steps 2 and 3 leave them, the input of
    the PCA and of the DataFrame. *)
Definition viz_table (points : list Qdrant.point) (query_vector : option embedding)
    (query_text : option string) : list (option embedding) * list viz_row :=
  let vectors := Qdrant.vector <$> points in
  let metadata := document_row <$> points in
  match query_vector with
  | Some q => (vectors ++ [Some q], metadata ++ [query_row query_text])
  | None => (vectors, metadata)
  end.

(** [get_visualization_data] up to the PCA. The inner [None] is the
    return of [None, None] for a collection without points; the outer one
    says that the scan has not left its loop after [fuel] rounds. *)
Definition get_visualization_table (fuel : nat) (query_vector : option embedding)
    (query_text : option string)
  : M (option (option (list (option embedding) * list viz_row))) :=
  r ← get_visualization_points fuel;
  mret ((λ points, if bool_decide (points = []) then None
                   else Some (viz_table points query_vector query_text)) <$> r).

(** ** streamlit_app.py: the question form and the wait for a run *)

(** The event of the form: sent when the form is submitted with a
    question that is not blank, with the question stripped. *)
Definition query_form_event (submitted : bool) (question : string) (top_k : Z)
  : option query_event :=
  if submitted && truthy (Py.strip question)
  then Some {| ev_question := Some (Py.strip question); ev_top_k := Some top_k |}
  else None.

(** The exceptions of the wait: the two it raises and what [fetch_runs]
    raises (a failed request). *)
Inductive wait_exn : Type :=
  | RuntimeError (msg : string)
  | TimeoutError (msg : string)
  | RequestError (msg : string).

(** A run as the Inngest API lists it: the fields the wait reads. *)
Record run (J : Type) : Type :=
  { run_status : option string; run_output : option (gmap string J) }.
Arguments run_status {J} _.
Arguments run_output {J} _.

Definition success_statuses : list string := ["Completed"; "Succeeded"; "Success"; "Finished"].
Definition failure_statuses : list string := ["Failed"; "Cancelled"].

(** [status in (...)], for a status that may be [None]. *)
Definition status_in (status : option string) (l : list string) : bool :=
  match status with
  | Some s => bool_decide (s ∈ l)
  | None => false
  end.

(** [status or last_status]. *)
Definition or_last (status last_status : option string) : option string :=
  match status with
  | Some s => if truthy s then Some s else last_status
  | None => last_status
  end.

(** [f"{last_status}"]. *)
Definition str_of_status (last_status : option string) : string :=
  default "None" last_status.

Section wait.

(** The outside of the wait: the answer of the i-th call of [fetch_runs]
    and the i-th reading of [time.time()]; reading 0 is [start], reading
    i + 1 the one after the i-th poll. *)
Context {J : Type} (fetch_runs : nat → wait_exn + list (run J)) (time : nat → Q).

(** The [while True] loop of [wait_for_run_output] from poll [i] on;
    [None] when the loop has not left after [fuel] rounds. *)
Fixpoint wait_loop (fuel : nat) (start timeout_s : Q) (i : nat)
    (last_status : option string) : option (wait_exn + gmap string J) :=
  match fuel with
  | O => None
  | S fuel' =>
      match fetch_runs i with
      | inl e => Some (inl e)
      | inr runs =>
          let check last_status :=
            if Qlt_le_dec timeout_s (time (S i) - start)
            then Some (inl (TimeoutError
                   ("Timed out waiting for run output (last status: "
                    +:+ str_of_status last_status +:+ ")")))
            else wait_loop fuel' start timeout_s (S i) last_status in
          match runs with
          | run :: _ =>
              let status := run_status run in
              let last_status := or_last status last_status in
              if status_in status success_statuses
              then Some (inr (default ∅ (run_output run)))
              else if status_in status failure_statuses
              then Some (inl (RuntimeError ("Function run " +:+ str_of_status status)))
              else check last_status
          | [] => check last_status
          end
      end
  end.

Definition wait_for_run_output (fuel : nat) (timeout_s : Q)
  : option (wait_exn + gmap string J) :=
  wait_loop fuel (time 0) timeout_s 0 None.

(** A poll that settles nothing: no run yet, or a first run whose status
    is neither a success nor a failure. *)
Definition pending (r : wait_exn + list (run J)) : bool :=
  match r with
  | inl _ => false
  | inr [] => true
  | inr (run :: _) =>
      negb (status_in (run_status run) success_statuses)
      && negb (status_in (run_status run) failure_statuses)
  end.

End wait.

(** ** Further example data *)



(** A clock read every half second. *)
Definition half_seconds (i : nat) : Q := inject_Z (Z.of_nat i) * (1 # 2).

(** An API that lists no run on the first two polls and a completed run,
    before a second one, from the third poll on. *)
Definition answer_on_third_poll (i : nat) : wait_exn + list (run string) :=
  if i <? 2 then inr []
  else inr [ {| run_status := Some "Completed";
                run_output := Some {[ "answer" := "42" ]} |};
             {| run_status := Some "Failed"; run_output := None |} ].

(** An API that never lists a run. *)
Definition no_runs (i : nat) : wait_exn + list (run string) := inr [].


(** * Properties *)

(** ** Sorting *)

Section sort_desc_facts.
Context {A : Type} (key : A → Q).

Lemma insert_desc_perm (x : A) (l : list A) : insert_desc key x l ≡ₚ x :: l.
Proof.
  induction l as [|y l IH]; simpl; [done|].
  destruct (Qle_bool (key y) (key x)); [done|].
  rewrite IH. apply Permutation_swap.
Qed.

Lemma sort_desc_perm (l : list A) : sort_desc key l ≡ₚ l.
Proof.
  induction l as [|x l IH]; simpl; [done|].
  rewrite insert_desc_perm. by rewrite IH.
Qed.

Lemma insert_desc_sorted (x : A) (l : list A) :
  StronglySorted (desc key) l → StronglySorted (desc key) (insert_desc key x l).
Proof.
  induction 1 as [|y l Hl IH Hy]; simpl.
  - repeat constructor.
  - destruct (Qle_bool (key y) (key x)) eqn:E.
    + apply Qle_bool_iff in E.
      constructor; [by constructor|].
      constructor; [done|].
      eapply Forall_impl; [exact Hy|].
      intros z Hz. unfold desc in *. by apply Qle_trans with (key y).
    + constructor; [done|].
      rewrite insert_desc_perm. constructor; [|done].
      unfold desc. destruct (Qlt_le_dec (key y) (key x)) as [Hlt|Hle]; [|done].
      apply Qlt_le_weak, Qle_bool_iff in Hlt. congruence.
Qed.

Lemma sort_desc_sorted (l : list A) : StronglySorted (desc key) (sort_desc key l).
Proof.
  induction l as [|x l IH]; simpl; [constructor|].
  by apply insert_desc_sorted.
Qed.

Lemma insert_desc_with_key (s : Q) (x : A) (l : list A) :
  with_key key s (insert_desc key x l) = with_key key s (x :: l).
Proof.
  unfold with_key.
  induction l as [|y l IH]; simpl; [done|].
  destruct (Qle_bool (key y) (key x)) eqn:E; [done|].
  rewrite filter_cons, IH, !filter_cons.
  destruct (decide (Qeq_bool (key x) s = true)) as [Hx|Hx]; [|done].
  destruct (decide (Qeq_bool (key y) s = true)) as [Hy|Hy]; [|done].
  apply Qeq_bool_iff in Hx, Hy.
  assert (Qle_bool (key y) (key x) = true); [|congruence].
  apply Qle_bool_iff. rewrite Hx, Hy. apply Qle_refl.
Qed.

Lemma sort_desc_with_key (s : Q) (l : list A) :
  with_key key s (sort_desc key l) = with_key key s l.
Proof.
  induction l as [|x l IH]; simpl; [done|].
  rewrite insert_desc_with_key. unfold with_key in *.
  by rewrite !filter_cons, IH.
Qed.

End sort_desc_facts.

Lemma filter_fmap_comm {A B : Type} (f : A → B) (P : B → Prop)
    `{∀ y, Decision (P y)} (l : list A) :
  filter P (f <$> l) = f <$> filter (λ x, P (f x)) l.
Proof.
  induction l as [|x l IH]; [done|].
  rewrite fmap_cons, !filter_cons, IH. by case_decide.
Qed.

Section stable_unique.
Context {A : Type} (key : A → Q).

Lemma with_key_cons (s : Q) (x : A) (l : list A) :
with_key key s (x :: l)
= if Qeq_bool (key x) s then x :: with_key key s l else with_key key s l.
Proof.
unfold with_key. rewrite filter_cons.
destruct (Qeq_bool (key x) s); by case_decide.
Qed.

Lemma with_key_own (x : A) (l : list A) :
with_key key (key x) (x :: l) = x :: with_key key (key x) l.
Proof.
rewrite with_key_cons.
by rewrite (proj2 (Qeq_bool_iff (key x) (key x)) (Qeq_refl _)).
Qed.

Lemma elem_of_with_key (s : Q) (x : A) (l : list A) :
x ∈ with_key key s l ↔ x ∈ l ∧ Qeq_bool (key x) s = true.
Proof. unfold with_key. rewrite list_elem_of_filter. tauto. Qed.

(** A descending list starts with the first element of its head's key
  class in any list that has the same key classes. *)
Lemma desc_head (x : A) (l1 l2 : list A) :
StronglySorted (desc key) (x :: l1) →
StronglySorted (desc key) l2 →
(∀ s, with_key key s (x :: l1) = with_key key s l2) →
∃ l2', l2 = x :: l2'.
Proof.
intros H1 H2 Hk. destruct l2 as [|y l2].
{ specialize (Hk (key x)). by rewrite with_key_own in Hk. }
exists l2. f_equal.
destruct (Qeq_bool (key y) (key x)) eqn:Eyx.
- specialize (Hk (key x)). rewrite with_key_own, with_key_cons, Eyx in Hk.
  by injection Hk.
- exfalso.
  assert (x ∈ y :: l2) as Hx.
  { eapply (proj1 (elem_of_with_key (key x) _ _)). rewrite <- Hk, with_key_own. by left. }
  assert (y ∈ x :: l1) as Hy.
  { eapply (proj1 (elem_of_with_key (key y) _ _)). rewrite Hk, with_key_own. by left. }
  apply StronglySorted_inv in H1 as [_ H1]. apply StronglySorted_inv in H2 as [_ H2].
  rewrite Forall_forall in H1, H2.
  apply elem_of_cons in Hx as [->|Hx].
  { by rewrite (proj2 (Qeq_bool_iff _ _) (Qeq_refl _)) in Eyx. }
  apply elem_of_cons in Hy as [->|Hy].
  { by rewrite (proj2 (Qeq_bool_iff _ _) (Qeq_refl _)) in Eyx. }
  specialize (H1 y Hy). specialize (H2 x Hx). unfold desc in H1, H2.
  assert (key y == key x)%Q as Heq by (by apply Qle_antisym).
  apply Qeq_bool_iff in Heq. congruence.
Qed.

(** Two descending lists with the same key classes, each class in the same
  order, are equal: a stable descending sort has one possible result. *)
Lemma stable_desc_unique (l1 l2 : list A) :
StronglySorted (desc key) l1 →
StronglySorted (desc key) l2 →
(∀ s, with_key key s l1 = with_key key s l2) →
l1 = l2.
Proof.
revert l2. induction l1 as [|x l1 IH]; intros l2 H1 H2 Hk.
- destruct l2 as [|y l2]; [done|].
  specialize (Hk (key y)). by rewrite with_key_own in Hk.
- destruct (desc_head x l1 l2 H1 H2 Hk) as [l2' ->]. f_equal.
  apply IH.
  + by apply StronglySorted_inv in H1 as [? _].
  + by apply StronglySorted_inv in H2 as [? _].
  + intros s. specialize (Hk s). rewrite !with_key_cons in Hk.
    destruct (Qeq_bool (key x) s); [by injection Hk|done].
Qed.

(** Whatever stable algorithm sorts the list in descending order, the
  result is that of [sort_desc]. *)
Lemma sort_desc_unique (l l' : list A) :
StronglySorted (desc key) l' →
(∀ s, with_key key s l' = with_key key s l) →
l' = sort_desc key l.
Proof.
intros Hs Hk. apply stable_desc_unique; [done|apply sort_desc_sorted|].
intros s. by rewrite Hk, sort_desc_with_key.
Qed.

End stable_unique.

(** ** Strings *)

Example split_example :
  Py.split "  what is  the Capital of france " = ["what"; "is"; "the"; "Capital"; "of"; "france"].
Proof. reflexivity. Qed.

Example lower_example : Py.lower "My-Doc.PDF" = "my-doc.pdf".
Proof. reflexivity. Qed.

Example contains_example :
  Py.contains "doc" "my-doc.pdf" = true ∧ Py.contains "docs" "my-doc.pdf" = false.
Proof. split; reflexivity. Qed.

Example slice_to_example :
  Py.slice_to [1; 2; 3] 2 = [1; 2] ∧ Py.slice_to [1; 2; 3] 5 = [1; 2; 3]
  ∧ Py.slice_to [1; 2; 3] 0 = [] ∧ Py.slice_to [1; 2; 3] (-1) = [1; 2]
  ∧ Py.slice_to [1; 2; 3] (-5) = [].
Proof. split_and!; reflexivity. Qed.

Example str_of_nat_example : Py.str_of_nat 0 = "0" ∧ Py.str_of_nat 120 = "120".
Proof. split; reflexivity. Qed.

Example strip_example : Py.strip "  a b  " = "a b" ∧ Py.strip "   " = "".
Proof. split; reflexivity. Qed.

Lemma lstrip_blank (t : string) : Py.blank t = true → Py.lstrip t = "".
Proof.
  induction t as [|c t IH]; simpl; [done|].
  intros [Hc Ht]%andb_true_iff. rewrite Hc. auto.
Qed.

Lemma strip_blank (t : string) : Py.blank t = true → Py.strip t = "".
Proof. intros H. unfold Py.strip. by rewrite lstrip_blank. Qed.

Lemma string_app_cons (x : ascii) (a b : string) :
  String x a +:+ b = String x (a +:+ b).
Proof. reflexivity. Qed.

Lemma string_app_assoc (a b c : string) : (a +:+ b) +:+ c = a +:+ (b +:+ c).
Proof. induction a as [|x a IH]; [done|]. by rewrite !string_app_cons, IH. Qed.

Lemma string_app_nil_r (a : string) : a +:+ "" = a.
Proof. induction a as [|x a IH]; [done|]. by rewrite !string_app_cons, IH. Qed.

Lemma no_space_app (a b : string) :
  no_space (a +:+ b) = no_space a && no_space b.
Proof.
  induction a as [|x a IH]; [done|].
  rewrite string_app_cons. cbn [no_space]. rewrite IH. by rewrite andb_assoc.
Qed.

Lemma string_app_nonempty (a : string) (c : ascii) : a +:+ String c "" ≠ "".
Proof. by destruct a. Qed.

(** Every token of [split] is a non-empty run without whitespace. *)
Lemma split_go_tokens (cur s t : string) :
  no_space cur = true → t ∈ Py.split_go cur s → t ≠ "" ∧ no_space t = true.
Proof.
  revert cur. induction s as [|c s IH]; intros cur Hcur; simpl.
  - case_decide; [by intros ?%elem_of_nil|]. by intros ->%list_elem_of_singleton.
  - destruct (Py.isspace c) eqn:Hc.
    + intros [Ht|Ht]%elem_of_app; [|by eapply (IH "")].
      case_decide; [by apply elem_of_nil in Ht|].
      by apply list_elem_of_singleton in Ht as ->.
    + apply IH. rewrite no_space_app, Hcur. simpl. by rewrite Hc.
Qed.

Lemma split_tokens (s t : string) :
  t ∈ Py.split s → t ≠ "" ∧ no_space t = true.
Proof. by apply split_go_tokens. Qed.

Lemma split_go_token (cur t s : string) :
  no_space t = true → Py.split_go cur (t +:+ s) = Py.split_go (cur +:+ t) s.
Proof.
  revert cur. induction t as [|c t IH]; intros cur Ht.
  - by rewrite string_app_nil_r.
  - rewrite string_app_cons. cbn [Py.split_go]. simpl in Ht. apply andb_true_iff in Ht as [Hc Ht].
    apply negb_true_iff in Hc. rewrite Hc, IH by done.
    by rewrite string_app_assoc.
Qed.

(** [split] gives back the tokens that were joined by single spaces. *)
Lemma split_join (l : list string) :
  Forall (λ t, t ≠ "" ∧ no_space t = true) l → Py.split (Py.join " " l) = l.
Proof.
  unfold Py.split. induction 1 as [|t l [Hne Ht] Hl IH]; [done|].
  destruct l as [|t' l].
  - simpl. rewrite <- (string_app_nil_r t) at 1.
    rewrite split_go_token by done. simpl. by rewrite decide_False.
  - change (Py.join " " (t :: t' :: l)) with (t +:+ " " +:+ Py.join " " (t' :: l)).
    rewrite split_go_token by done.
    change ("" +:+ t) with t.
    change (" " +:+ Py.join " " (t' :: l))
      with (String " "%char (Py.join " " (t' :: l))).
    cbn [Py.split_go]. change (Py.isspace " ") with true. cbn iota.
    rewrite decide_False by done. by rewrite IH.
Qed.

(** ** The monad *)

Lemma calls_bind {A B : Type} (m : M A) (f : A → M B) (db : Qdrant.client) :
  calls ((m ≫= f) db)
  = calls (m db) ++ match value (m db) with
                    | inl _ => []
                    | inr a => calls (f a (store (m db)))
                    end.
Proof.
  unfold mbind, M_bind. destruct (value (m db)); simpl; [by rewrite app_nil_r|done].
Qed.

Lemma value_bind {A B : Type} (m : M A) (f : A → M B) (db : Qdrant.client) :
  value ((m ≫= f) db)
  = match value (m db) with
    | inl e => inl e
    | inr a => value (f a (store (m db)))
    end.
Proof. unfold mbind, M_bind. by destruct (value (m db)). Qed.

Lemma store_bind {A B : Type} (m : M A) (f : A → M B) (db : Qdrant.client) :
  store ((m ≫= f) db)
  = match value (m db) with
    | inl e => store (m db)
    | inr a => store (f a (store (m db)))
    end.
Proof. unfold mbind, M_bind. by destruct (value (m db)). Qed.

Lemma value_external {A : Type} (c : call) (r : exn + A) (db : Qdrant.client) :
  value (external c r db) = r.
Proof. done. Qed.

Lemma store_external {A : Type} (c : call) (r : exn + A) (db : Qdrant.client) :
  store (external c r db) = db.
Proof. done. Qed.

Lemma value_lift {A : Type} (r : exn + A) (db : Qdrant.client) :
  value (lift r db) = r.
Proof. by destruct r. Qed.

Lemma store_lift {A : Type} (r : exn + A) (db : Qdrant.client) :
  store (lift r db) = db.
Proof. by destruct r. Qed.

Lemma calls_lift {A : Type} (r : exn + A) (db : Qdrant.client) :
  calls (lift r db) = [].
Proof. by destruct r. Qed.

Lemma value_store_call {A : Type} (op : store_op)
    (f : Qdrant.client → exn + (A * Qdrant.client)) (db : Qdrant.client) :
  value (store_call op f db)
  = match f db with
    | inl e => inl e
    | inr r => inr r.1
    end.
Proof. unfold store_call. by destruct (f db) as [?|[??]]. Qed.

Lemma store_store_call {A : Type} (op : store_op)
    (f : Qdrant.client → exn + (A * Qdrant.client)) (db : Qdrant.client) :
  store (store_call op f db)
  = match f db with
    | inl e => db
    | inr r => r.2
    end.
Proof. unfold store_call. by destruct (f db) as [?|[??]]. Qed.

Lemma calls_store_call {A : Type} (op : store_op)
    (f : Qdrant.client → exn + (A * Qdrant.client)) (db : Qdrant.client) :
  calls (store_call op f db) = [CallStore op].
Proof. unfold store_call. by destruct (f db) as [?|[??]]. Qed.

Lemma value_finally_close {A : Type} (m : M A) (db : Qdrant.client) :
  value (finally m close db) = value (m db).
Proof. done. Qed.

Lemma store_finally_close {A : Type} (m : M A) (db : Qdrant.client) :
  store (finally m close db) = store (m db).
Proof. done. Qed.

Lemma calls_finally_close {A : Type} (m : M A) (db : Qdrant.client) :
  calls (finally m close db) = calls (m db) ++ [CallStore OpClose].
Proof. done. Qed.

Lemma bind_outcome {A B : Type} (m : M A) (f : A → M B) (db db' : Qdrant.client)
    (cs : list call) (a : A) :
  m db = Outcome cs db' (inr a) →
  (m ≫= f) db
  = Outcome (cs ++ calls (f a db')) (store (f a db')) (value (f a db')).
Proof. intros H. unfold mbind, M_bind. by rewrite H. Qed.

(** ** Hybrid rescoring *)





Lemma elem_of_terms_of (question t : string) :
  t ∈ terms_of question ↔ t ∈ Py.split (Py.lower question) ∧ 3 ≤ String.length t.
Proof.
  unfold terms_of. rewrite elem_of_list_to_set, list_elem_of_filter. tauto.
Qed.

Lemma terms_of_tokens (question t : string) :
  t ∈ terms_of question → 3 ≤ String.length t ∧ no_space t = true.
Proof.
  intros [Ht Hlen]%elem_of_terms_of. split; [done|].
  by apply split_tokens in Ht as [_ ?].
Qed.

(** A term that occurs twice in the question counts once. *)
Example repeated_term_counts_once :
  Py.split (Py.lower "Doc doc in DOC") = ["doc"; "doc"; "in"; "doc"]
  ∧ elements (terms_of "Doc doc in DOC") = ["doc"]
  ∧ count_matches (terms_of "Doc doc in DOC") (Py.lower "My-Doc.PDF") = 1.
Proof. split_and!; by vm_compute. Qed.



(** C3. The ranking of [_search] holds the rescored candidates, each as
    often as before, in descending order of adjusted score, and the
    candidates of one adjusted score stand in the order in which the store
    returned them. *)
Theorem stable_rerank (question : string) (results : list candidate) :
  ranked question results ≡ₚ rescored question results
  ∧ StronglySorted (λ a b, (score b <= score a)%Q) (ranked question results)
  ∧ ∀ s : Q,
      filter (λ c, Qeq_bool (score c) s = true) (ranked question results)
      = boost (terms_of question)
          <$> filter (λ c, Qeq_bool (score (boost (terms_of question) c)) s = true)
                results.
Proof.
  unfold ranked. split_and!.
  - apply sort_desc_perm.
  - apply sort_desc_sorted.
  - intros s.
    etrans; [apply (sort_desc_with_key score)|].
    unfold with_key, rescored. apply filter_fmap_comm.
Qed.

Lemma length_slice_to {A : Type} (l : list A) (k : Z) :
  length (Py.slice_to l k)
  = if (0 <=? k)%Z then Z.to_nat (Z.min k (Z.of_nat (length l)))
    else length l - Z.to_nat (- k).
Proof.
  unfold Py.slice_to. destruct (0 <=? k)%Z eqn:E; rewrite length_take; lia.
Qed.


Lemma length_ranked (question : string) (results : list candidate) :
  length (ranked question results) = length results.
Proof.
  unfold ranked, rescored.
  by rewrite (Permutation_length (sort_desc_perm _ _)), length_fmap.
Qed.




(** ** Opening the store *)

(** C6 as stated fails: the collection exists with size 3, the store is
    opened for size 2560, and opening succeeds and leaves the collection
    as it is. *)
Lemma open_ignores_dimension :
  (∃ c, mismatched_db !! "docs_2560" = Some c
        ∧ Qdrant.size (Qdrant.config c) = 3 ∧ 3 ≠ 2560)
  ∧ value (QdrantStorage_init "docs_2560" 2560 mismatched_db)
    = inr {| collection := "docs_2560"; dim := 2560 |}
  ∧ store (QdrantStorage_init "docs_2560" 2560 mismatched_db) = mismatched_db.
Proof. split_and!; [eexists; split_and!; [reflexivity|reflexivity|lia] | reflexivity | reflexivity]. Qed.

(** Opening the store returns the handle and creates the collection when
    it is absent. *)
Lemma QdrantStorage_init_value (name : string) (D : nat) (db : Qdrant.client) :
  value (QdrantStorage_init name D db) = inr {| collection := name; dim := D |}.
Proof.
  unfold QdrantStorage_init, client_collection_exists, client_create_collection.
  rewrite value_bind, value_store_call, store_store_call. cbn [fst snd].
  rewrite value_bind, value_store_call, store_store_call. cbn [fst snd].
  unfold Qdrant.collection_exists.
  destruct (db !! name) as [c|] eqn:E.
  - rewrite bool_decide_eq_true_2 by eauto. cbn [negb]. by rewrite value_bind.
  - rewrite bool_decide_eq_false_2 by (by intros [? ?]). cbn [negb].
    rewrite value_bind, value_store_call. unfold Qdrant.create_collection.
    by rewrite E.
Qed.

Lemma QdrantStorage_init_store (name : string) (D : nat) (db : Qdrant.client) :
  store (QdrantStorage_init name D db)
  = match db !! name with
    | Some _ => db
    | None => <[name := {| Qdrant.config := {| Qdrant.size := D;
                                                Qdrant.distance := Qdrant.COSINE |};
                           Qdrant.points := ∅ |}]> db
    end.
Proof.
  unfold QdrantStorage_init, client_collection_exists, client_create_collection.
  rewrite store_bind, value_store_call, store_store_call. cbn [fst snd].
  rewrite store_bind, value_store_call, store_store_call. cbn [fst snd].
  unfold Qdrant.collection_exists.
  destruct (db !! name) as [c|] eqn:E.
  - rewrite bool_decide_eq_true_2 by eauto. cbn [negb]. by rewrite store_bind.
  - rewrite bool_decide_eq_false_2 by (by intros [? ?]). cbn [negb].
    rewrite store_bind, value_store_call, store_store_call.
    unfold Qdrant.create_collection. by rewrite E.
Qed.

(** C6, as the code has it. Opening the store always succeeds (given the
    storage itself answers): a collection that is absent is created with
    size D and cosine distance; a collection that exists is left as it is
    and its size is not compared with D. *)
Theorem open_store (name : string) (D : nat) (db : Qdrant.client) :
  let o := QdrantStorage_init name D db in
  value o = inr {| collection := name; dim := D |}
  ∧ (db !! name = None →
     store o = <[name := {| Qdrant.config := {| Qdrant.size := D;
                                                 Qdrant.distance := Qdrant.COSINE |};
                            Qdrant.points := ∅ |}]> db
     ∧ calls o = [CallStore OpOpen; CallStore OpCollectionExists;
                  CallStore OpCreateCollection])
  ∧ (∀ c, db !! name = Some c →
     store o = db
     ∧ calls o = [CallStore OpOpen; CallStore OpCollectionExists]).
Proof.
  unfold QdrantStorage_init, client_collection_exists, client_create_collection,
    store_call, mbind, M_bind, mret, M_ret, Qdrant.collection_exists,
    Qdrant.create_collection.
  simpl. destruct (db !! name) as [c|] eqn:E; simpl.
  - split_and!; [done|done|]. by intros ? [= <-].
  - rewrite E. simpl. split_and!; [done|done|]. by intros ? [=].
Qed.

(** Opening over a collection of another size, and over an empty storage. *)
Lemma open_store_witness :
  store (QdrantStorage_init "docs_2560" 2560 mismatched_db) = mismatched_db
  ∧ store (QdrantStorage_init "docs_2560" 2560 ∅)
    = {[ "docs_2560" := {| Qdrant.config := {| Qdrant.size := 2560;
                                                 Qdrant.distance := Qdrant.COSINE |};
                           Qdrant.points := ∅ |} ]}.
Proof.
  destruct (open_store "docs_2560" 2560 mismatched_db) as (_ & _ & Hsome).
  destruct (open_store "docs_2560" 2560 ∅) as (_ & Hnone & _).
  split.
  - by destruct (Hsome _ eq_refl).
  - by destruct (Hnone eq_refl).
Defined.

Lemma opened_lookup (db : Qdrant.client) :
  ∃ c, opened db !! "docs_2560" = Some c
       ∧ Qdrant.points c = collection_points db "docs_2560"
       ∧ (∀ c0, db !! "docs_2560" = Some c0 → opened db = db).
Proof.
  unfold opened, collection_points. rewrite QdrantStorage_init_store.
  destruct (db !! "docs_2560") as [c0|] eqn:E.
  - exists c0. split_and!; [done|done|]. by intros.
  - eexists. split; [apply lookup_insert_eq|]. split; [done|]. by intros ? [=].
Qed.

(** ** Search *)

Lemma collect_results_omap (points : list Qdrant.ScoredPoint) :
  collect_results points = omap candidate_of points.
Proof.
  unfold collect_results.
  enough (∀ acc, foldl (λ results p,
             let payload := default ∅ (Qdrant.payload (Qdrant.hit p)) in
             match payload !! "text" with
             | Some text =>
                 if truthy text
                 then results ++ [ {| text := text;
                                      source := default "" (payload !! "source_id");
                                      score := Qdrant.score p |} ]
                 else results
             | None => results
             end) acc points = acc ++ omap candidate_of points) as H by apply H.
  induction points as [|p points IH]; intros acc; simpl.
  - by rewrite app_nil_r.
  - rewrite IH. unfold candidate_of at 2, truthy.
    destruct (Qdrant.payload (Qdrant.hit p)) as [d|]; simpl.
    + destruct (d !! "text") as [t|]; simpl; [|done].
      destruct (bool_decide (t = "")); simpl; [done|].
      by rewrite <- app_assoc.
    + by rewrite lookup_empty.
Qed.

Lemma search_vectors_value (similarity : embedding → embedding → Q)
    (self : QdrantStorage) (query : embedding) (top_k : nat)
    (source_id : option string) (thr : Q) (db : Qdrant.client) :
  let o := search_vectors similarity self query top_k source_id thr db in
  store o = db
  ∧ calls o = [CallStore OpQueryPoints]
  ∧ value o =
      match Qdrant.query_points similarity db (collection self) query top_k
              (source_filter source_id) thr with
      | inl e => inl e
      | inr points =>
          let results := collect_results points in
          inr {| out_context := text <$> results;
                 out_sources := elements (list_to_set (source <$> results) : gset string);
                 results := results |}
      end.
Proof.
  unfold search_vectors, client_query_points, store_call, mbind, M_bind. simpl.
  destruct (Qdrant.query_points _ _ _ _ _ _ _); simpl; done.
Qed.

Lemma candidate_of_text (p : Qdrant.ScoredPoint) (r : candidate) :
  candidate_of p = Some r →
  Qdrant.payload (Qdrant.hit p) ≫= (λ d, d !! "text") = Some (text r)
  ∧ text r ≠ "" ∧ score r = Qdrant.score p
  ∧ source r = default "" (Qdrant.payload (Qdrant.hit p) ≫= (λ d, d !! "source_id")).
Proof.
  unfold candidate_of.
  destruct (Qdrant.payload (Qdrant.hit p) ≫= _) as [t|]; [|done].
  case_bool_decide; [done|]. by intros [= <-].
Qed.

Lemma length_omap_le {A B : Type} (f : A → option B) (l : list A) :
  length (omap f l) ≤ length l.
Proof.
  induction l as [|x l IH]; [done|]. cbn [omap list_omap].
  destruct (f x); cbn [length]; lia.
Qed.

Lemma length_query_points (similarity : embedding → embedding → Q)
    (db : Qdrant.client) (name : string) (query : embedding) (limit : nat)
    (f : option Qdrant.Filter) (thr : Q) (points : list Qdrant.ScoredPoint) :
  Qdrant.query_points similarity db name query limit f thr = inr points →
  length points ≤ limit.
Proof.
  unfold Qdrant.query_points. destruct (Qdrant.get_collection db name); [done|].
  intros [= <-]. rewrite length_take. lia.
Qed.

(** C10. [search_vectors] turns the points found into candidates one by
    one, in order: a point whose payload is missing, has no "text" or an
    empty "text" gives no candidate, so it is absent from "results",
    "context" and "sources"; a point with text but no "source_id" gives a
    candidate with source "". Hence there can be fewer candidates than
    top_k although the collection holds top_k records that reach the
    threshold. *)
Theorem search_drops_textless :
  (∀ (similarity : embedding → embedding → Q) (self : QdrantStorage)
     (query : embedding) (top_k : nat) (source_id : option string) (thr : Q)
     (db : Qdrant.client) (c : Qdrant.collection),
     db !! collection self = Some c →
     ∃ points out,
       Qdrant.query_points similarity db (collection self) query top_k
         (source_filter source_id) thr = inr points
       ∧ value (search_vectors similarity self query top_k source_id thr db) = inr out
       ∧ results out = omap candidate_of points
       ∧ out_context out = text <$> results out
       ∧ (∀ s, s ∈ out_sources out ↔ ∃ r, r ∈ results out ∧ source r = s)
       ∧ (∀ r, r ∈ results out → text r ≠ "")
       ∧ length (results out) ≤ length points ∧ length points ≤ top_k)
  ∧ (∀ p : Qdrant.ScoredPoint,
       (Qdrant.payload (Qdrant.hit p) ≫= (λ d, d !! "text") = None
        ∨ Qdrant.payload (Qdrant.hit p) ≫= (λ d, d !! "text") = Some "") →
       candidate_of p = None)
  ∧ (∀ (p : Qdrant.ScoredPoint) (t : string),
       Qdrant.payload (Qdrant.hit p) ≫= (λ d, d !! "text") = Some t → t ≠ "" →
       Qdrant.payload (Qdrant.hit p) ≫= (λ d, d !! "source_id") = None →
       candidate_of p = Some {| text := t; source := ""; score := Qdrant.score p |})
  ∧ (∃ points out,
       Qdrant.query_points dot textless_db "docs_2560" [1%Q] 4 None 0.1%Q = inr points
       ∧ Qdrant.id ∘ Qdrant.hit <$> points = [1; 2; 3; 4]%N
       ∧ value (search_vectors dot docs_store [1%Q] 4 None 0.1%Q textless_db) = inr out
       ∧ results out =
           [ {| text := "alpha"; source := "a.pdf"; score := 1 |};
             {| text := "gamma"; source := ""; score := 1 |} ]).
Proof.
  split_and!.
  - intros similarity self query top_k source_id thr db c Hc.
    pose proof (search_vectors_value similarity self query top_k source_id thr db)
      as (_ & _ & Hv).
    destruct (Qdrant.query_points similarity db (collection self) query top_k
                (source_filter source_id) thr) as [e|points] eqn:Hq.
    { unfold Qdrant.query_points, Qdrant.get_collection in Hq. by rewrite Hc in Hq. }
    eexists points, _. split; [done|]. split; [exact Hv|]. simpl.
    rewrite collect_results_omap. split_and!; [done|done| | | |].
    + intros s. rewrite elem_of_elements, elem_of_list_to_set, list_elem_of_fmap.
      split; [intros (r & -> & Hr) | intros (r & Hr & <-)]; eauto.
    + intros r (p & _ & Hp)%list_elem_of_omap. by apply candidate_of_text in Hp as (_ & ? & _).
    + apply length_omap_le.
    + by eapply length_query_points.
  - intros p [H|H]; unfold candidate_of; by rewrite H.
  - intros p t Ht Hne Hs. unfold candidate_of. rewrite Ht, Hs.
    by rewrite bool_decide_eq_false_2.
  - eexists _, _. split_and!; [by vm_compute | by vm_compute | by vm_compute | by vm_compute].
Qed.

(** A search filtered by source over the collection with textless records. *)
Lemma search_drops_textless_witness :
  ∃ out, value (search_vectors dot docs_store [1%Q] 4 (Some "a.pdf") 0.1%Q textless_db)
         = inr out
         ∧ length (results out) ≤ 4.
Proof.
  destruct search_drops_textless as (H & _).
  destruct (H dot docs_store [1%Q] 4 (Some "a.pdf") 0.1%Q textless_db _ eq_refl)
    as (points & out & _ & Hv & _ & _ & _ & _ & Hle & Hk).
  exists out. split; [exact Hv|]. lia.
Defined.

(** [_search] ends in [retrieval] on the candidates of the store whenever
    the embedding service returns a vector for the question. *)
Lemma _search_outcome (similarity : embedding → embedding → Q) (svc : services)
    (question : string) (top_k : Z) (db : Qdrant.client)
    (v : embedding) (vs : list embedding) :
  embeddings_create svc EMBED_MODEL [question] = inr (v :: vs) →
  ∃ points,
    Qdrant.query_points similarity (opened db) "docs_2560" v 500 None 0.1%Q = inr points
    ∧ length points ≤ 500
    ∧ value (_search similarity svc question top_k db)
      = inr (retrieval question top_k (collect_results points))
    ∧ store (_search similarity svc question top_k db) = opened db.
Proof.
  intros Hemb.
  pose proof (opened_lookup db) as (c & Hc & _ & _).
  pose proof (QdrantStorage_init_value "docs_2560" 2560 db) as Hv.
  destruct (Qdrant.query_points similarity (opened db) "docs_2560" v 500 None 0.1%Q)
    as [e|points] eqn:Hq.
  { unfold Qdrant.query_points, Qdrant.get_collection in Hq. by rewrite Hc in Hq. }
  exists points. split; [done|]. split; [by eapply length_query_points|].
  unfold _search, embed_texts.
  rewrite value_bind, store_bind, value_external, store_external, Hemb.
  cbn [lookup list_lookup].
  rewrite value_bind, store_bind, value_lift, store_lift.
  rewrite value_bind, store_bind. unfold with_QdrantStorage.
  rewrite value_bind, store_bind, Hv, value_finally_close, store_finally_close.
  fold (opened db).
  pose proof (search_vectors_value similarity
                {| collection := "docs_2560"; dim := 2560 |} v 500 None 0.1%Q (opened db))
    as (Hs & _ & Hval).
  cbn [collection source_filter] in Hval. rewrite Hq in Hval.
  rewrite Hval, Hs. done.
Qed.

(** ** The query handler *)

(** C7. A query event without a question, or with the empty string as
    question, makes the handler raise its missing-question error (a
    ValueError in the code) with no call made: none to the embedding
    service, none to the store, none to the LLM; the storage is as
    before. *)
Theorem missing_question (similarity : embedding → embedding → Q)
    (svc : services) (ev : query_event) (db : Qdrant.client) :
  ev_question ev = None ∨ ev_question ev = Some "" →
  let o := rag_query_pdf_ai similarity svc ev db in
  value o = inl (ValueError
    "Missing 'question' in event data. Please provide a question to query.")
  ∧ calls o = []
  ∧ store o = db.
Proof.
  intros [H|H]; unfold rag_query_pdf_ai; rewrite H; done.
Qed.

(** A query event whose question is the empty string. *)
Lemma missing_question_witness :
  value (rag_query_pdf_ai dot unit_embeddings
           {| ev_question := Some ""; ev_top_k := Some 3%Z |} textless_db)
  = inl (ValueError
      "Missing 'question' in event data. Please provide a question to query.")
  ∧ calls (rag_query_pdf_ai dot unit_embeddings
             {| ev_question := Some ""; ev_top_k := Some 3%Z |} textless_db) = [].
Proof.
  destruct (missing_question dot unit_embeddings
              {| ev_question := Some ""; ev_top_k := Some 3%Z |} textless_db
              (or_intror eq_refl))
    as (Hv & Hc & _).
  by split.
Defined.

(** With a question, the first call is the embedding of the question. *)
Lemma question_embedded_first (similarity : embedding → embedding → Q)
    (svc : services) (ev : query_event) (db : Qdrant.client) (question : string) :
  ev_question ev = Some question → question ≠ "" →
  ∃ rest, calls (rag_query_pdf_ai similarity svc ev db)
          = CallEmbeddings EMBED_MODEL [question] :: rest.
Proof.
  intros H Hne. unfold rag_query_pdf_ai. rewrite H. unfold truthy.
  rewrite bool_decide_eq_false_2 by done. simpl.
  rewrite calls_bind. unfold _search at 1. rewrite calls_bind.
  unfold embed_texts at 1, external at 1. simpl. eauto.
Qed.

(** ** Ingestion *)

(** C8. When the reader extracts no text, or text of whitespace only, the
    ingestion raises its empty-document error (a ValueError in the code)
    right after reading: nothing is embedded, nothing is upserted, the
    storage is as before. *)
Theorem empty_document (uuid5 : uuid → string → uuid)
    (split_text : string → list string) (svc : services) (ev : ingest_event)
    (db : Qdrant.client) (path : string) (docs : list (option string)) :
  ev_pdf_path ev = Some path →
  load_data svc path = inr docs →
  Forall (λ d, d = None ∨ ∃ t, d = Some t ∧ Py.blank t = true) docs →
  let o := rag_inngest_pdf uuid5 split_text svc ev db in
  value o = inl (ValueError ("No text extracted from " +:+ path
                             +:+ ". The PDF might be a scanned image or empty."))
  ∧ calls o = [CallReader path]
  ∧ store o = db.
Proof.
  intros Hp Hd Hdocs.
  assert (forallb (λ t, negb (truthy (Py.strip t))) (kept_texts docs) = true) as Hall.
  { apply forallb_forall. intros t Hin%list_elem_of_In.
    apply list_elem_of_omap in Hin as (d & Hin & Ht).
    rewrite Forall_forall in Hdocs. destruct (Hdocs d Hin) as [->|(t' & -> & Hb)]; [done|].
    destruct (truthy t'); [|done]. injection Ht as <-.
    by rewrite strip_blank. }
  unfold rag_inngest_pdf, _load, load_and_chunk_pdf, external, lift, raise,
    mbind, M_bind, mret, M_ret.
  rewrite Hp. simpl. rewrite Hd. simpl.
  rewrite Hall, orb_true_r. done.
Qed.

(** The ingestion of a PDF whose pages hold no words. *)
Lemma empty_document_witness :
  value (rag_inngest_pdf digest_uuid5 (λ s, [s]) scanned_pdf
           {| ev_pdf_path := Some "scan.pdf"; ev_source_id := None |} ∅)
  = inl (ValueError
      "No text extracted from scan.pdf. The PDF might be a scanned image or empty.")
  ∧ calls (rag_inngest_pdf digest_uuid5 (λ s, [s]) scanned_pdf
             {| ev_pdf_path := Some "scan.pdf"; ev_source_id := None |} ∅)
    = [CallReader "scan.pdf"].
Proof.
  destruct (empty_document digest_uuid5 (λ s, [s]) scanned_pdf
              {| ev_pdf_path := Some "scan.pdf"; ev_source_id := None |} ∅
              "scan.pdf" [Some "   "; None; Some ""] eq_refl eq_refl)
    as (Hv & Hc & _).
  - constructor; [right; by exists "   "|].
    constructor; [by left|].
    constructor; [right; by exists ""|]. constructor.
  - by split.
Defined.




Section upsert_facts.
Implicit Types (m : gmap uuid (embedding * option (gmap string string))).
Implicit Types (ps : list Qdrant.point).

Lemma upsert_points_other m ps (k : uuid) :
  k ∉ Qdrant.id <$> ps → foldl Qdrant.upsert_point m ps !! k = m !! k.
Proof.
  revert m. induction ps as [|p ps IH]; intros m Hk; simpl; [done|].
  rewrite fmap_cons, not_elem_of_cons in Hk. destruct Hk as [Hne Hk].
  rewrite IH by done. unfold Qdrant.upsert_point. by rewrite lookup_insert_ne.
Qed.

Lemma upsert_points_agree m1 m2 ps (k : uuid) :
  m1 !! k = m2 !! k ∨ k ∈ Qdrant.id <$> ps →
  foldl Qdrant.upsert_point m1 ps !! k = foldl Qdrant.upsert_point m2 ps !! k.
Proof.
  revert m1 m2. induction ps as [|p ps IH]; intros m1 m2 Hk; simpl.
  - destruct Hk as [?|Hk]; [done|]. by apply elem_of_nil in Hk.
  - apply IH. unfold Qdrant.upsert_point.
    destruct (decide (Qdrant.id p = k)) as [->|Hne].
    + left. by rewrite !lookup_insert_eq.
    + rewrite !lookup_insert_ne by done.
      destruct Hk as [?|Hk]; [by left|].
      rewrite fmap_cons, elem_of_cons in Hk. destruct Hk as [?|?]; [congruence|by right].
Qed.


(** Points upserted later win over the same ids upserted before. *)
Lemma upsert_points_last_wins m ps1 ps2 :
  Qdrant.id <$> ps1 = Qdrant.id <$> ps2 →
  foldl Qdrant.upsert_point (foldl Qdrant.upsert_point m ps1) ps2
  = foldl Qdrant.upsert_point m ps2.
Proof.
  intros Hids. apply map_eq. intros k. apply upsert_points_agree.
  destruct (decide (k ∈ Qdrant.id <$> ps2)) as [|Hk]; [by right|left].
  apply upsert_points_other. by rewrite Hids.
Qed.


End upsert_facts.

Lemma try_map_inr {A B : Type} (f : A → exn + B) (l : list A) (ys : list B) :
  try_map f l = inr ys → Forall2 (λ x y, f x = inr y) l ys.
Proof.
  revert ys. induction l as [|x l IH]; intros ys; simpl.
  - intros [= <-]. constructor.
  - destruct (f x) as [e|y] eqn:E; [done|].
    destruct (try_map f l) as [e|ys']; [done|].
    intros [= <-]. constructor; auto.
Qed.










(** ** The paginated scan *)

Section scroll_facts.
Context {V : Type}.
Implicit Types (l rest : list (uuid * V)) (e : uuid * V).

Lemma ascending_app_inv l1 l2 :
  ascending (l1 ++ l2) →
  ascending l1 ∧ ascending l2 ∧ ∀ a b, a ∈ l1 → b ∈ l2 → (a.1 < b.1)%N.
Proof.
  unfold ascending. induction l1 as [|x l1 IH]; simpl.
  - intros H. split_and!; [constructor|done|]. intros a b Ha. by apply elem_of_nil in Ha.
  - intros H. apply StronglySorted_inv in H as [H Hx].
    destruct (IH H) as (H1 & H2 & H12). apply Forall_app in Hx as [Hx1 Hx2].
    split_and!; [by constructor|done|].
    intros a b [->|Ha]%elem_of_cons Hb; [|by apply H12].
    rewrite Forall_forall in Hx2. by apply Hx2.
Qed.

Lemma filter_from_offset_all (o : uuid) l :
  Forall (λ a, (o ≤ a.1)%N) l →
  filter (λ a, Qdrant.from_offset (Some o) a = true) l = l.
Proof.
  induction 1 as [|a l Ha _ IH]; [done|].
  rewrite filter_cons, IH. simpl.
  rewrite decide_True; [done|]. by apply N.leb_le.
Qed.

Lemma filter_from_offset_none (o : uuid) l :
  Forall (λ a, (a.1 < o)%N) l →
  filter (λ a, Qdrant.from_offset (Some o) a = true) l = [].
Proof.
  induction 1 as [|a l Ha _ IH]; [done|].
  rewrite filter_cons, IH. simpl.
  rewrite decide_False; [done|]. rewrite N.leb_le. lia.
Qed.

(** Resuming at the id of an element gives that element and what
    follows it. *)
Lemma filter_from_offset_resume l1 e l2 :
  ascending (l1 ++ e :: l2) →
  filter (λ a, Qdrant.from_offset (Some e.1) a = true) (l1 ++ e :: l2) = e :: l2.
Proof.
  intros (_ & H2 & H12)%ascending_app_inv.
  rewrite filter_app, filter_from_offset_none, filter_from_offset_all; [done| |].
  - apply StronglySorted_inv in H2 as [_ H2]. constructor; [simpl; lia|].
    eapply Forall_impl; [exact H2|]. simpl. intros; lia.
  - apply Forall_forall. intros a Ha. apply H12; [done|]. by left.
Qed.

Lemma filter_from_offset_suffix (offset : option uuid) l :
  ascending l →
  ∃ l1, l = l1 ++ filter (λ a, Qdrant.from_offset offset a = true) l.
Proof.
  destruct offset as [o|]; simpl.
  2:{ intros _. exists []. simpl. induction l as [|a l IH]; [done|].
      rewrite filter_cons. simpl. by rewrite <- IH. }
  unfold ascending. induction 1 as [|a l Hl IH Ha].
  - by exists [].
  - rewrite filter_cons. simpl. case_decide as Hoa.
    + exists []. simpl. f_equal. symmetry. apply filter_from_offset_all.
      apply N.leb_le in Hoa. eapply Forall_impl; [exact Ha|]. simpl. intros; lia.
    + destruct IH as [l1 IH]. exists (a :: l1). simpl. by f_equal.
Qed.

(** The page after a full page starts where [scroll] said. *)
Lemma next_page (offset : option uuid) (limit : nat) l e :
  ascending l →
  filter (λ a, Qdrant.from_offset offset a = true) l !! limit = Some e →
  filter (λ a, Qdrant.from_offset (Some e.1) a = true) l
  = drop limit (filter (λ a, Qdrant.from_offset offset a = true) l).
Proof.
  intros Hl He. destruct (filter_from_offset_suffix offset l Hl) as [l1 Hsuf].
  set (rest := filter (λ a, Qdrant.from_offset offset a = true) l) in *.
  rewrite <- (take_drop_middle rest limit e He) in Hsuf.
  rewrite (drop_S rest e limit He).
  rewrite Hsuf at 1. rewrite app_assoc.
  apply filter_from_offset_resume. rewrite <- app_assoc. by rewrite <- Hsuf.
Qed.

End scroll_facts.

Lemma listing_perm (c : Qdrant.collection) :
  Qdrant.listing c ≡ₚ map_to_list (Qdrant.points c).
Proof. apply merge_sort_Permutation. Qed.

Lemma listing_ascending (c : Qdrant.collection) : ascending (Qdrant.listing c).
Proof.
  assert (NoDup (Qdrant.listing c).*1) as Hnd.
  { rewrite listing_perm. apply NoDup_fst_map_to_list. }
  assert (StronglySorted Qdrant.id_le (Qdrant.listing c)) as Hs.
  { apply StronglySorted_merge_sort.
    - intros x y z. unfold Qdrant.id_le. lia.
    - intros x y. unfold Qdrant.id_le. lia. }
  revert Hnd. induction Hs as [|a l Hl IH Ha]; intros Hnd; [constructor|].
  rewrite fmap_cons in Hnd. apply NoDup_cons in Hnd as [Hni Hnd].
  constructor; [by apply IH|].
  apply Forall_forall. intros b Hb. rewrite Forall_forall in Ha.
  specialize (Ha b Hb). unfold Qdrant.id_le in Ha.
  assert (a.1 ≠ b.1); [|lia].
  intros Heq. apply Hni. rewrite Heq. by apply list_elem_of_fmap_2.
Qed.

Lemma client_scroll_outcome (db : Qdrant.client) (name : string)
    (c : Qdrant.collection) (limit : nat) (with_vectors : bool)
    (offset : option uuid) :
  db !! name = Some c →
  client_scroll name limit with_vectors offset db
  = Outcome [CallStore OpScroll] db
      (inr (Qdrant.to_point with_vectors <$> take limit (rest_from offset c),
            fst <$> rest_from offset c !! limit)).
Proof.
  intros Hc. unfold client_scroll, store_call, Qdrant.scroll, Qdrant.get_collection.
  by rewrite Hc.
Qed.

Lemma rest_from_none (c : Qdrant.collection) : rest_from None c = Qdrant.listing c.
Proof.
  unfold rest_from. induction (Qdrant.listing c) as [|a l IH]; [done|].
  rewrite filter_cons, IH. done.
Qed.

Lemma rest_from_next (c : Qdrant.collection) (offset : option uuid) (limit : nat)
    (e : uuid * (embedding * option (gmap string string))) :
  rest_from offset c !! limit = Some e →
  rest_from (Some e.1) c = drop limit (rest_from offset c).
Proof. apply next_page, listing_ascending. Qed.

Lemma pages_small (n : nat) : n ≤ 100 → pages n = 1.
Proof.
  intros H. unfold pages. f_equal. apply Nat.div_small. lia.
Qed.

Lemma pages_step (n : nat) : 100 < n → pages n = S (pages (n - 100)).
Proof.
  intros H. unfold pages. f_equal.
  replace (n - 1) with ((n - 100 - 1) + 1 * 100) by lia.
  rewrite Nat.div_add by lia. lia.
Qed.

Lemma scan_loop_outcome (self : QdrantStorage) (db : Qdrant.client)
    (c : Qdrant.collection) (fuel : nat) (points : list Qdrant.point)
    (offset : option uuid) :
  db !! collection self = Some c →
  length (rest_from offset c) < 100 * fuel →
  scan_loop self fuel points offset db
  = Outcome (replicate (pages (length (rest_from offset c))) (CallStore OpScroll)) db
      (inr (Some (points ++ (Qdrant.to_point true <$> rest_from offset c)))).
Proof.
  intros Hc. revert points offset.
  induction fuel as [|fuel IH]; intros points offset Hfuel; [lia|].
  cbn [scan_loop].
  rewrite (bind_outcome _ _ _ _ _ _ (client_scroll_outcome _ _ c _ _ _ Hc)).
  cbn [fst snd].
  destruct (rest_from offset c !! 100) as [e|] eqn:He; cbn [fmap option_fmap option_map].
  - pose proof (lookup_lt_Some _ _ _ He) as Hlen.
    pose proof (rest_from_next c offset 100 e He) as Hnext.
    rewrite IH; rewrite Hnext, ?length_drop; [|lia].
    cbn [calls store value]. f_equal.
    + rewrite (pages_step (length (rest_from offset c))) by lia. done.
    + rewrite <- app_assoc, <- fmap_app, take_drop. done.
  - apply lookup_ge_None_1 in He.
    rewrite take_ge by lia. rewrite pages_small by lia. done.
Qed.

Lemma list_sources_loop_outcome (self : QdrantStorage) (db : Qdrant.client)
    (c : Qdrant.collection) (fuel : nat) (sources : gset string)
    (offset : option uuid) :
  db !! collection self = Some c →
  length (rest_from offset c) < 100 * fuel →
  list_sources_loop self fuel sources offset db
  = Outcome (replicate (pages (length (rest_from offset c))) (CallStore OpScroll)) db
      (inr (Some (foldl add_source sources
                    (Qdrant.to_point false <$> rest_from offset c)))).
Proof.
  intros Hc. revert sources offset.
  induction fuel as [|fuel IH]; intros sources offset Hfuel; [lia|].
  cbn [list_sources_loop].
  rewrite (bind_outcome _ _ _ _ _ _ (client_scroll_outcome _ _ c _ _ _ Hc)).
  cbn [fst snd].
  destruct (rest_from offset c !! 100) as [e|] eqn:He; cbn [fmap option_fmap option_map].
  - pose proof (lookup_lt_Some _ _ _ He) as Hlen.
    pose proof (rest_from_next c offset 100 e He) as Hnext.
    rewrite IH; rewrite Hnext, ?length_drop; [|lia].
    cbn [calls store value]. f_equal.
    + rewrite (pages_step (length (rest_from offset c))) by lia. done.
    + rewrite <- foldl_app, <- fmap_app, take_drop. done.
  - apply lookup_ge_None_1 in He.
    rewrite take_ge by lia. rewrite pages_small by lia. done.
Qed.

Lemma length_listing (c : Qdrant.collection) :
  length (Qdrant.listing c) = size (Qdrant.points c).
Proof. by rewrite (Permutation_length (listing_perm c)), length_map_to_list. Qed.

Lemma elem_of_listing (c : Qdrant.collection) (k : uuid)
    (r : embedding * option (gmap string string)) :
  (k, r) ∈ Qdrant.listing c ↔ Qdrant.points c !! k = Some r.
Proof. by rewrite (listing_perm c), elem_of_map_to_list. Qed.

Lemma NoDup_listing_ids (c : Qdrant.collection) (with_vectors : bool) :
  NoDup (Qdrant.id <$> (Qdrant.to_point with_vectors <$> Qdrant.listing c)).
Proof.
  rewrite <- list_fmap_compose.
  assert (NoDup (Qdrant.listing c).*1) as H.
  { rewrite listing_perm. apply NoDup_fst_map_to_list. }
  exact H.
Qed.

Lemma fuel_enough (n fuel : nat) : n / 100 < fuel → n < 100 * fuel.
Proof.
  intros H. destruct (decide (n < 100 * fuel)) as [|Hge]; [done|].
  assert (fuel ≤ n / 100); [|lia]. apply Nat.div_le_lower_bound; lia.
Qed.

Lemma elem_of_foldl_add_source (ps : list Qdrant.point) (acc : gset string) (s : string) :
  s ∈ foldl add_source acc ps
  ↔ s ∈ acc ∨ ∃ p pl, p ∈ ps ∧ Qdrant.payload p = Some pl
                      ∧ pl !! "source_id" = Some s ∧ s ≠ "".
Proof.
  revert acc. induction ps as [|p ps IH]; intros acc; simpl.
  - split; [by left|]. intros [?|(p & pl & Hp & _)]; [done|]. by apply elem_of_nil in Hp.
  - rewrite IH. unfold add_source at 1.
    split.
    + intros [Hs|(q & pl & Hq & Hpl)].
      * destruct (Qdrant.payload p) as [pl|] eqn:Epl; simpl in Hs.
        -- destruct (pl !! "source_id") as [t|] eqn:Et; [|by left].
           unfold truthy in Hs. case_bool_decide as Ht; simpl in Hs; [by left|].
           apply elem_of_union in Hs as [?|Hs]; [by left|].
           apply elem_of_singleton in Hs as ->.
           right. exists p, pl. split_and!; [by left|done..].
        -- rewrite lookup_empty in Hs. by left.
      * right. exists q, pl. split; [by right|done].
    + intros [Hs|(q & pl & Hq & Hpl & Hs & Hne)].
      * left. destruct (default ∅ (Qdrant.payload p) !! "source_id") as [t|]; [|done].
        destruct (truthy t); [|done]. set_solver.
      * apply elem_of_cons in Hq as [->|Hq]; [|right; by exists q, pl].
        left. rewrite Hpl. simpl. rewrite Hs. unfold truthy.
        rewrite bool_decide_eq_false_2 by done. simpl. set_solver.
Qed.

(** What the loop of [list_sources] collects. *)
Lemma paginated_scan_sources (self : QdrantStorage) (db : Qdrant.client)
    (c : Qdrant.collection) (fuel : nat) :
  db !! collection self = Some c →
  size (Qdrant.points c) / 100 < fuel →
  ∃ sources : gset string,
    list_sources_loop self fuel ∅ None db
    = Outcome (replicate (pages (size (Qdrant.points c))) (CallStore OpScroll)) db
        (inr (Some sources))
    ∧ ∀ s, s ∈ sources
           ↔ ∃ k v pl, Qdrant.points c !! k = Some (v, Some pl)
                       ∧ pl !! "source_id" = Some s ∧ s ≠ "".
Proof.
  intros Hc Hfuel%fuel_enough.
  rewrite <- (length_listing c), <- (rest_from_none c) in Hfuel.
  exists (foldl add_source ∅ (Qdrant.to_point false <$> Qdrant.listing c)). split.
  - rewrite (list_sources_loop_outcome self db c) by done.
    by rewrite rest_from_none, length_listing.
  - intros s. rewrite elem_of_foldl_add_source. split.
    + intros [Hs|(p & pl & Hp & Hpl & Hs)]; [by apply elem_of_empty in Hs|].
      apply list_elem_of_fmap in Hp as ([k [v pl']] & -> & Hp). simpl in Hpl. subst pl'.
      exists k, v, pl. by rewrite <- elem_of_listing.
    + intros (k & v & pl & Hk & Hs). right.
      exists (Qdrant.to_point false (k, (v, Some pl))), pl.
      split; [|done]. apply list_elem_of_fmap_2. by apply elem_of_listing.
Qed.

(** C5. With fuel for more rounds than the collection has full pages, the
    scroll loop ends: after one [scroll] call per page of 100 it has read
    the collection in id order. The scan of [get_visualization_data]
    returns every record exactly once (the ids returned are pairwise
    distinct, and a record is returned exactly when it is stored), and the
    loop of [list_sources] has seen the source of every record. The storage
    is not changed. *)
Theorem paginated_scan (self : QdrantStorage) (db : Qdrant.client)
    (c : Qdrant.collection) (fuel : nat) :
  db !! collection self = Some c →
  size (Qdrant.points c) / 100 < fuel →
  ∃ points : list Qdrant.point,
    scan_loop self fuel [] None db
    = Outcome (replicate (pages (size (Qdrant.points c))) (CallStore OpScroll)) db
        (inr (Some points))
    ∧ length points = size (Qdrant.points c)
    ∧ NoDup (Qdrant.id <$> points)
    ∧ (∀ k v pl, Qdrant.points c !! k = Some (v, pl)
                 ↔ {| Qdrant.id := k; Qdrant.vector := Some v; Qdrant.payload := pl |}
                   ∈ points)
    ∧ ∃ sources : gset string,
        list_sources_loop self fuel ∅ None db
        = Outcome (replicate (pages (size (Qdrant.points c))) (CallStore OpScroll)) db
            (inr (Some sources))
        ∧ ∀ s, s ∈ sources
               ↔ ∃ k v pl, Qdrant.points c !! k = Some (v, Some pl)
                           ∧ pl !! "source_id" = Some s ∧ s ≠ "".
Proof.
  intros Hc Hfuel.
  pose proof (paginated_scan_sources self db c fuel Hc Hfuel) as Hsources.
  apply fuel_enough in Hfuel.
  rewrite <- (length_listing c), <- (rest_from_none c) in Hfuel.
  exists (Qdrant.to_point true <$> Qdrant.listing c). split_and!.
  - rewrite (scan_loop_outcome self db c) by done.
    by rewrite rest_from_none, length_listing.
  - by rewrite length_fmap, length_listing.
  - apply NoDup_listing_ids.
  - intros k v pl. rewrite <- elem_of_listing, list_elem_of_fmap. split.
    + intros H. by exists (k, (v, pl)).
    + intros ([k' [v' pl']] & [= -> -> ->] & H). done.
  - exact Hsources.
Qed.

Lemma library_250_size : size (Qdrant.points (library 250)) = 250.
Proof. by vm_compute. Qed.

(** The scenario of the specification: 250 records, pages of 100. *)
Lemma paginated_scan_250 :
  ∃ points : list Qdrant.point,
    value (scan_loop docs_store 3 [] None (library_db 250)) = inr (Some points)
    ∧ calls (scan_loop docs_store 3 [] None (library_db 250))
      = [CallStore OpScroll; CallStore OpScroll; CallStore OpScroll]
    ∧ length points = 250
    ∧ NoDup (Qdrant.id <$> points).
Proof.
  assert (library_db 250 !! collection docs_store = Some (library 250)) as Hc
    by reflexivity.
  assert (size (Qdrant.points (library 250)) / 100 < 3) as Hfuel
    by (rewrite library_250_size; vm_compute; lia).
  destruct (paginated_scan docs_store (library_db 250) (library 250) 3 Hc Hfuel)
    as (points & Hrun & Hlen & Hnd & _).
  exists points. rewrite Hrun, Hlen, library_250_size. split_and!; done.
Defined.

(** The scan of [get_visualization_data], from opening the store to
    closing it. *)
Lemma get_visualization_points_outcome (db : Qdrant.client)
    (c : Qdrant.collection) (fuel : nat) :
  db !! "docs_2560" = Some c →
  size (Qdrant.points c) / 100 < fuel →
  value (get_visualization_points fuel db)
  = inr (Some (Qdrant.to_point true <$> Qdrant.listing c))
  ∧ store (get_visualization_points fuel db) = db.
Proof.
  intros Hc Hfuel%fuel_enough.
  rewrite <- (length_listing c), <- (rest_from_none c) in Hfuel.
  unfold get_visualization_points, with_QdrantStorage.
  rewrite value_bind, store_bind, QdrantStorage_init_value,
    value_finally_close, store_finally_close, QdrantStorage_init_store, Hc.
  rewrite (scan_loop_outcome _ db c) by done.
  by rewrite rest_from_none.
Qed.

(** [list_sources]: the distinct non-empty source ids, sorted. *)
Lemma list_sources_outcome (self : QdrantStorage) (db : Qdrant.client)
    (c : Qdrant.collection) (fuel : nat) :
  db !! collection self = Some c →
  size (Qdrant.points c) / 100 < fuel →
  ∃ l, value (list_sources self fuel db) = inr (Some l)
       ∧ Sorted String.le l ∧ NoDup l
       ∧ ∀ s, s ∈ l ↔ ∃ k v pl, Qdrant.points c !! k = Some (v, Some pl)
                                 ∧ pl !! "source_id" = Some s ∧ s ≠ "".
Proof.
  intros Hc Hfuel.
  destruct (paginated_scan_sources self db c fuel Hc Hfuel) as (sources & Hrun & Hin).
  exists (merge_sort String.le (elements sources)).
  unfold list_sources. rewrite value_bind, Hrun. cbn [value store].
  split; [done|]. split; [apply Sorted_merge_sort, _|].
  split.
  - rewrite merge_sort_Permutation. apply NoDup_elements.
  - intros s. by rewrite merge_sort_Permutation, elem_of_elements.
Qed.

(** * Further properties *)

(** ** Deleting a source *)

Lemma qdrant_delete_points_lookup (db : Qdrant.client) (name : string)
    (c : Qdrant.collection) (f : Qdrant.Filter) :
  db !! name = Some c →
  Qdrant.delete_points db name f
  = inr (<[name := {| Qdrant.config := Qdrant.config c;
                      Qdrant.points :=
                        filter (λ e, Qdrant.matches (Some f) e.2.2 = false)
                          (Qdrant.points c) |}]> db).
Proof.
  intros Hc. unfold Qdrant.delete_points, Qdrant.get_collection. by rewrite Hc.
Qed.

Lemma matches_source (s : string) (pl : option (gmap string string)) :
  Qdrant.matches (Some {| Qdrant.key := "source_id"; Qdrant.value := s |}) pl = false
  ↔ pl ≫= (λ d, d !! "source_id") ≠ Some s.
Proof.
  unfold Qdrant.matches. cbn [Qdrant.key Qdrant.value].
  rewrite bool_decide_eq_false. done.
Qed.

(** X1. [delete_source] removes the records whose payload names the source,
    and only those. *)
Theorem delete_source_effect (self : QdrantStorage) (s : string)
    (db : Qdrant.client) (c : Qdrant.collection) :
  db !! collection self = Some c →
  let o := delete_source self s db in
  value o = inr ()
  ∧ calls o = [CallStore OpDelete]
  ∧ ∃ c', store o = <[collection self := c']> db
          ∧ Qdrant.config c' = Qdrant.config c
          ∧ ∀ k v pl, Qdrant.points c' !! k = Some (v, pl)
                      ↔ Qdrant.points c !! k = Some (v, pl)
                        ∧ pl ≫= (λ d, d !! "source_id") ≠ Some s.
Proof.
  intros Hc. cbv zeta. unfold delete_source, client_delete.
  rewrite value_store_call, store_store_call, calls_store_call.
  rewrite (qdrant_delete_points_lookup db _ c) by done. cbn [fst snd].
  split; [done|]. split; [done|]. eexists. split; [done|]. split; [done|].
  intros k v pl. cbn [Qdrant.points].
  rewrite map_lookup_filter_Some. cbn [fst snd]. by rewrite matches_source.
Qed.

(** Deleting the source "a.pdf" from the collection with textless records. *)
Lemma delete_source_effect_witness :
  value (delete_source docs_store "a.pdf" textless_db) = inr ()
  ∧ calls (delete_source docs_store "a.pdf" textless_db) = [CallStore OpDelete].
Proof.
  destruct (delete_source_effect docs_store "a.pdf" textless_db _ eq_refl)
    as (Hv & Hcs & _).
  split; [exact Hv|exact Hcs].
Defined.

Lemma list_sources_value (self : QdrantStorage) (db : Qdrant.client)
    (c : Qdrant.collection) (fuel : nat) :
  db !! collection self = Some c →
  size (Qdrant.points c) / 100 < fuel →
  ∃ l, list_sources self fuel db
       = Outcome (replicate (pages (size (Qdrant.points c))) (CallStore OpScroll)) db
           (inr (Some l))
       ∧ Sorted String.le l ∧ NoDup l
       ∧ ∀ s, s ∈ l ↔ is_source (Qdrant.points c) s.
Proof.
  intros Hc Hfuel.
  destruct (paginated_scan_sources self db c fuel Hc Hfuel) as (sources & Hrun & Hin).
  exists (merge_sort String.le (elements sources)). split.
  - unfold list_sources. by rewrite (bind_outcome _ _ _ _ _ _ Hrun), app_nil_r.
  - split; [apply Sorted_merge_sort, _|]. split.
    + rewrite merge_sort_Permutation. apply NoDup_elements.
    + intros s. by rewrite merge_sort_Permutation, elem_of_elements.
Qed.

Lemma opened_points (db : Qdrant.client) :
  ∃ c, opened db !! "docs_2560" = Some c
       ∧ Qdrant.points c = collection_points db "docs_2560".
Proof. destruct (opened_lookup db) as (c & ? & ? & _). eauto. Qed.

(** What a [with QdrantStorage() as store] block does: it opens the store,
    runs the body on the opened storage and closes the store. *)
Lemma with_QdrantStorage_outcome {A : Type} (body : QdrantStorage → M A)
    (db : Qdrant.client) :
  let b := body {| collection := "docs_2560"; dim := 2560 |} (opened db) in
  value (with_QdrantStorage body db) = value b
  ∧ store (with_QdrantStorage body db) = store b
  ∧ calls (with_QdrantStorage body db)
    = calls (QdrantStorage_init "docs_2560" 2560 db) ++ calls b ++ [CallStore OpClose].
Proof.
  cbv zeta. unfold with_QdrantStorage.
  rewrite value_bind, store_bind, calls_bind, QdrantStorage_init_value,
    value_finally_close, store_finally_close, calls_finally_close.
  done.
Qed.

Lemma is_source_filter (pts : gmap uuid (embedding * option (gmap string string)))
    (s t : string) :
  is_source (filter (λ e, Qdrant.matches
                            (Some {| Qdrant.key := "source_id"; Qdrant.value := s |})
                            e.2.2 = false) pts) t
  ↔ is_source pts t ∧ t ≠ s.
Proof.
  unfold is_source. split.
  - intros (k & v & pl & Hk & Ht & Hne).
    apply map_lookup_filter_Some in Hk as [Hk Hm]. cbn [fst snd] in Hm.
    apply matches_source in Hm. cbn in Hm.
    split; [by exists k, v, pl|]. intros ->. congruence.
  - intros [(k & v & pl & Hk & Ht & Hne) Hts].
    exists k, v, pl. split; [|done].
    apply map_lookup_filter_Some. split; [done|]. cbn [fst snd].
    apply matches_source. cbn. congruence.
Qed.

(** X2. Deleting a source and listing the sources again: the deleted source is
    gone from the list, every other source is listed exactly when it was a
    source before. *)
Theorem delete_then_list (s : string) (fuel : nat) (db : Qdrant.client) :
  s ≠ "" →
  size (collection_points db "docs_2560") / 100 < fuel →
  ∃ l, value ((delete_selected s ≫= (λ _, get_current_sources fuel)) db) = inr (Some l)
       ∧ (s ∉ l)
       ∧ Sorted String.le l
       ∧ ∀ t, t ≠ s → (t ∈ l ↔ is_source (collection_points db "docs_2560") t).
Proof.
  intros Hs Hfuel.
  destruct (opened_points db) as (c & Hc & Hpts).
  set (self := {| collection := "docs_2560"; dim := 2560 |}).
  pose (f := {| Qdrant.key := "source_id"; Qdrant.value := s |}).
  set (c' := {| Qdrant.config := Qdrant.config c;
                Qdrant.points := filter (λ e, Qdrant.matches (Some f) e.2.2 = false)
                                   (Qdrant.points c) |}).
  assert (value (delete_selected s db) = inr ()
          ∧ store (delete_selected s db) = <["docs_2560" := c']> (opened db)) as [Hv1 Hs1].
  { unfold delete_selected, truthy. rewrite bool_decide_eq_false_2 by done.
    cbn [negb value store]. split; [done|].
    destruct (with_QdrantStorage_outcome (λ store, delete_source store s) db)
      as (_ & -> & _).
    unfold delete_source, client_delete.
    rewrite store_store_call. cbn [collection].
    by rewrite (qdrant_delete_points_lookup _ _ c). }
  set (db1 := <["docs_2560" := c']> (opened db)) in *.
  assert (db1 !! "docs_2560" = Some c') as Hc' by apply lookup_insert_eq.
  assert (opened db1 = db1) as Hopen.
  { destruct (opened_lookup db1) as (? & _ & _ & Hsame). by eapply Hsame. }
  assert (size (Qdrant.points c') / 100 < fuel) as Hfuel'.
  { eapply Nat.le_lt_trans; [|exact Hfuel]. apply Nat.Div0.div_le_mono.
    rewrite <- Hpts. apply map_subseteq_size, map_filter_subseteq. }
  destruct (list_sources_value self db1 c' fuel Hc' Hfuel') as (l & Hrun & Hsorted & _ & Hin).
  exists l. rewrite value_bind, Hv1, Hs1. fold db1.
  unfold get_current_sources. cbn [value].
  destruct (with_QdrantStorage_outcome (λ store, list_sources store fuel) db1)
    as (-> & _ & _).
  rewrite Hopen. fold self. rewrite Hrun. cbn [value].
  split; [done|]. split; [|split; [done|]].
  - intros Hl. apply Hin in Hl. unfold c', f in Hl. cbn [Qdrant.points] in Hl.
    by apply is_source_filter in Hl as [_ ?].
  - intros t Ht. rewrite Hin. unfold c', f. cbn [Qdrant.points].
    rewrite is_source_filter, Hpts. tauto.
Qed.

(** Deleting "a.pdf" in the source management and listing again. *)
Lemma delete_then_list_witness :
  ∃ l, value ((delete_selected "a.pdf" ≫= (λ _, get_current_sources 1)) textless_db)
       = inr (Some l)
       ∧ ("a.pdf" ∉ l) ∧ Sorted String.le l.
Proof.
  assert ("a.pdf" ≠ "") as Hne by discriminate.
  assert (size (collection_points textless_db "docs_2560") / 100 < 1) as Hfuel
    by (vm_compute; lia).
  destruct (delete_then_list "a.pdf" 1 textless_db Hne Hfuel) as (l & Hv & Hs & Hsort & _).
  exists l. split; [exact Hv|]. split; [exact Hs|exact Hsort].
Defined.

(** X3. Deleting a source twice is deleting it once, and deleting a source no
    record names leaves the storage as it is. *)
Theorem delete_source_idempotent (self : QdrantStorage) (s : string)
    (db : Qdrant.client) (c : Qdrant.collection) :
  db !! collection self = Some c →
  store (delete_source self s (store (delete_source self s db)))
  = store (delete_source self s db)
  ∧ ((∀ k v pl, Qdrant.points c !! k = Some (v, pl) →
                pl ≫= (λ d, d !! "source_id") ≠ Some s) →
     store (delete_source self s db) = db).
Proof.
  intros Hc. unfold delete_source, client_delete.
  rewrite !store_store_call.
  rewrite (qdrant_delete_points_lookup db _ c) by done. cbn [fst snd].
  split.
  - erewrite qdrant_delete_points_lookup by apply lookup_insert_eq.
    cbn [snd Qdrant.config Qdrant.points].
    rewrite insert_insert_eq. do 2 f_equal.
    rewrite map_filter_filter. apply map_filter_ext. tauto.
  - intros Hno. rewrite <- (insert_id db (collection self) c Hc) at 2.
    f_equal. destruct c as [cfg pts]. cbn [Qdrant.config Qdrant.points] in *.
    f_equal. apply map_filter_id. intros k [v pl] Hk. cbn [snd].
    apply matches_source. by eapply Hno.
Qed.

(** Deleting "a.pdf" a second time changes nothing. *)
Lemma delete_source_idempotent_witness :
  store (delete_source docs_store "a.pdf"
           (store (delete_source docs_store "a.pdf" textless_db)))
  = store (delete_source docs_store "a.pdf" textless_db).
Proof.
  exact (proj1 (delete_source_idempotent docs_store "a.pdf" textless_db _ eq_refl)).
Defined.

(** X4. [recreate_collection] never fails and leaves the collection empty,
    with the configured size and cosine distance, whatever it held; the other
    collections are as before. *)
Theorem recreate_collection_empties (self : QdrantStorage) (db : Qdrant.client) :
  let o := recreate_collection self db in
  value o = inr ()
  ∧ store o = <[collection self := {| Qdrant.config := {| Qdrant.size := dim self;
                                                           Qdrant.distance := Qdrant.COSINE |};
                                      Qdrant.points := ∅ |}]> db
  ∧ collection_points (store o) (collection self) = ∅
  ∧ ∀ name, name ≠ collection self → store o !! name = db !! name.
Proof.
  cbv zeta.
  assert (value (recreate_collection self db) = inr ()
          ∧ store (recreate_collection self db)
            = <[collection self := {| Qdrant.config := {| Qdrant.size := dim self;
                                                           Qdrant.distance := Qdrant.COSINE |};
                                      Qdrant.points := ∅ |}]> db) as [Hv Hs].
  { unfold recreate_collection, client_collection_exists, client_delete_collection,
      client_create_collection, store_call, mbind, M_bind, mret, M_ret,
      Qdrant.collection_exists, Qdrant.create_collection, Qdrant.delete_collection.
    simpl. destruct (db !! collection self) as [c|] eqn:E; simpl.
    - rewrite lookup_delete_eq. simpl. by rewrite insert_delete_eq.
    - by rewrite E. }
  rewrite Hv, Hs. split; [done|]. split; [done|]. split.
  - unfold collection_points. by rewrite lookup_insert_eq.
  - intros name Hne. by rewrite lookup_insert_ne.
Qed.

(** ** Listing the sources *)

(** X5. [list_sources] on a collection, whatever its number of pages: it only
    scrolls and leaves the storage as it is, and it returns each source id
    that some record names, the empty one apart, exactly once and in ascending
    order. *)
Theorem list_sources_sorted_distinct (self : QdrantStorage) (db : Qdrant.client)
    (c : Qdrant.collection) (fuel : nat) :
  db !! collection self = Some c →
  size (Qdrant.points c) / 100 < fuel →
  let o := list_sources self fuel db in
  ∃ l, value o = inr (Some l)
       ∧ store o = db
       ∧ (∀ k, k ∈ calls o → k = CallStore OpScroll)
       ∧ Sorted String.le l ∧ NoDup l
       ∧ ∀ s, s ∈ l ↔ is_source (Qdrant.points c) s.
Proof.
  intros Hc Hfuel. cbv zeta.
  destruct (list_sources_value self db c fuel Hc Hfuel) as (l & -> & Hs & Hnd & Hin).
  exists l. cbn [value store calls]. split_and!; try done.
  by intros k [-> _]%elem_of_replicate.
Qed.

(** The sources of the collection with textless records. *)
Lemma list_sources_sorted_distinct_witness :
  ∃ l, value (list_sources docs_store 1 textless_db) = inr (Some l)
       ∧ Sorted String.le l ∧ NoDup l.
Proof.
  assert (textless_db !! collection docs_store
          = Some (default {| Qdrant.config := {| Qdrant.size := 0;
                                                 Qdrant.distance := Qdrant.COSINE |};
                             Qdrant.points := ∅ |}
                    (textless_db !! "docs_2560"))) as Hc by reflexivity.
  assert (size (collection_points textless_db "docs_2560") / 100 < 1) as Hfuel
    by (vm_compute; lia).
  destruct (list_sources_sorted_distinct docs_store textless_db _ 1 Hc Hfuel)
    as (l & Hv & _ & _ & Hs & Hnd & _).
  exists l. split; [exact Hv|]. split; [exact Hs|exact Hnd].
Defined.

(** ** Upserting vectors *)

Lemma try_map_inl {A B : Type} (f : A → exn + B) (l : list A) (e : exn) :
  try_map f l = inl e → ∃ x, x ∈ l ∧ f x = inl e.
Proof.
  induction l as [|x l IH]; simpl; [done|].
  destruct (f x) as [e'|y] eqn:E.
  - intros [= <-]. exists x. split; [by left|done].
  - destruct (try_map f l) as [e'|ys]; [|done].
    intros [= <-]. destruct (IH eq_refl) as (x' & ? & ?).
    exists x'. split; [by right|done].
Qed.


(** The points built from positional triples. *)
Lemma make_points_lookup (ids : list uuid) (vectors : list embedding)
    (payloads : list (gmap string string)) (ps : list Qdrant.point) (i : nat) :
  make_points ids vectors payloads = inr ps →
  i < length ids →
  ∃ id v pl, ids !! i = Some id ∧ vectors !! i = Some v ∧ payloads !! i = Some pl
             ∧ ps !! i = Some {| Qdrant.id := id; Qdrant.vector := Some v;
                                 Qdrant.payload := Some pl |}.
Proof.
  unfold make_points. intros H%try_map_inr Hi.
  assert (seq 0 (length ids) !! i = Some i) as Hs by (by apply lookup_seq).
  destruct (Forall2_lookup_l _ _ _ _ _ H Hs) as (p & Hp & Hf).
  destruct (ids !! i) as [id|]; [|done].
  destruct (vectors !! i) as [v|]; [|done].
  destruct (payloads !! i) as [pl|]; [|done].
  injection Hf as <-. by exists id, v, pl.
Qed.


Lemma make_points_short (ids : list uuid) (vectors : list embedding)
    (payloads : list (gmap string string)) :
  length vectors < length ids ∨ length payloads < length ids →
  make_points ids vectors payloads = inl IndexError.
Proof.
  intros Hshort.
  destruct (make_points ids vectors payloads) as [e|ps] eqn:E.
  - apply try_map_inl in E as (i & _ & Hi).
    destruct (ids !! i), (vectors !! i), (payloads !! i); congruence.
  - exfalso. destruct Hshort as [H|H].
    + destruct (make_points_lookup _ _ _ _ (length vectors) E H) as (? & ? & ? & _ & Hv & _).
      apply lookup_lt_Some in Hv. lia.
    + destruct (make_points_lookup _ _ _ _ (length payloads) E H) as (? & ? & ? & _ & _ & Hp & _).
      apply lookup_lt_Some in Hp. lia.
Qed.


(** X6. [upsert_vectors] with fewer vectors or payloads than ids raises
    IndexError while it builds the points: the client is not called and
    nothing is stored. *)
Theorem upsert_vectors_short (self : QdrantStorage) (ids : list uuid)
    (vectors : list embedding) (payloads : list (gmap string string))
    (db : Qdrant.client) :
  length vectors < length ids ∨ length payloads < length ids →
  let o := upsert_vectors self ids vectors payloads db in
  value o = inl IndexError ∧ store o = db ∧ calls o = [].
Proof.
  intros Hshort. cbv zeta. unfold upsert_vectors.
  rewrite value_bind, store_bind, calls_bind, value_lift, store_lift, calls_lift.
  by rewrite make_points_short.
Qed.

(** Two ids and one vector. *)
Lemma upsert_vectors_short_witness :
  value (upsert_vectors docs_store [7%N; 8%N] [[1%Q]] [∅; ∅] textless_db) = inl IndexError
  ∧ store (upsert_vectors docs_store [7%N; 8%N] [[1%Q]] [∅; ∅] textless_db) = textless_db.
Proof.
  assert (length [[1%Q]] < length [7%N; 8%N]
          ∨ length [∅; ∅ : gmap string string] < length [7%N; 8%N]) as Hshort
    by (left; simpl; lia).
  destruct (upsert_vectors_short docs_store [7%N; 8%N] [[1%Q]] [∅; ∅] textless_db Hshort)
    as (Hv & Hs & _).
  split; [exact Hv|exact Hs].
Defined.



(** ** The candidates of a search *)


(** What [query_points] returns: stored points that pass the filter and
    reach the threshold, best first, [limit] at most. *)
Lemma query_points_sound (similarity : embedding → embedding → Q)
    (db : Qdrant.client) (name : string) (c : Qdrant.collection)
    (query : embedding) (limit : nat) (f : option Qdrant.Filter) (thr : Q)
    (points : list Qdrant.ScoredPoint) :
  db !! name = Some c →
  Qdrant.query_points similarity db name query limit f thr = inr points →
  StronglySorted (desc Qdrant.score) points
  ∧ ∀ p, p ∈ points →
      ∃ k v pl, Qdrant.points c !! k = Some (v, pl)
                ∧ Qdrant.matches f pl = true
                ∧ Qdrant.payload (Qdrant.hit p) = pl
                ∧ Qdrant.score p = similarity query v
                ∧ (thr <= Qdrant.score p)%Q.
Proof.
  intros Hc. unfold Qdrant.query_points, Qdrant.get_collection. rewrite Hc.
  intros [= <-]. split.
  - eapply StronglySorted_app_1_l. erewrite take_drop. apply sort_desc_sorted.
  - intros p Hp%subseteq_take.
    rewrite (sort_desc_perm Qdrant.score) in Hp.
    apply list_elem_of_filter in Hp as [Hthr Hp].
    apply list_elem_of_fmap in Hp as ([k [v pl]] & -> & He).
    apply list_elem_of_filter in He as [Hm He].
    apply elem_of_listing in He.
    exists k, v, pl. cbn. split_and!; [done..|].
    by apply Qle_bool_iff.
Qed.



(** X9. A truthy [source_id] restricts the candidates to that source; the
    empty string is no filter. *)
Theorem search_vectors_by_source (similarity : embedding → embedding → Q)
    (self : QdrantStorage) (query : embedding) (top_k : nat) (thr : Q)
    (db : Qdrant.client) :
  (∀ s c, db !! collection self = Some c → s ≠ "" →
     ∃ out, value (search_vectors similarity self query top_k (Some s) thr db) = inr out
            ∧ (∀ r, r ∈ results out → source r = s)
            ∧ (∀ t, t ∈ out_sources out → t = s))
  ∧ search_vectors similarity self query top_k (Some "") thr db
    = search_vectors similarity self query top_k None thr db.
Proof.
  split; [|done]. intros s c Hc Hs.
  pose proof (search_vectors_value similarity self query top_k (Some s) thr db)
    as (_ & _ & Hv).
  destruct (Qdrant.query_points similarity db (collection self) query top_k
              (source_filter (Some s)) thr) as [e|points] eqn:Hq.
  { unfold Qdrant.query_points, Qdrant.get_collection in Hq. by rewrite Hc in Hq. }
  destruct (query_points_sound _ _ _ c _ _ _ _ _ Hc Hq) as [_ Hsound].
  eexists. split; [exact Hv|]. cbn [results out_sources].
  rewrite collect_results_omap.
  assert (∀ r, r ∈ omap candidate_of points → source r = s) as Hsrc.
  { intros r (p & Hp & Hr)%list_elem_of_omap.
    destruct (Hsound p Hp) as (k & v & pl & _ & Hm & Hpl & _).
    apply candidate_of_text in Hr as (_ & _ & _ & ->). rewrite Hpl.
    unfold source_filter, truthy in Hm. rewrite bool_decide_eq_false_2 in Hm by done.
    cbn in Hm. apply bool_decide_eq_true in Hm. by rewrite Hm. }
  split; [done|].
  intros t Ht. apply elem_of_elements, elem_of_list_to_set in Ht.
  apply list_elem_of_fmap in Ht as (r & -> & Hr). by apply Hsrc.
Qed.

(** A search of the source "a.pdf". *)
Lemma search_vectors_by_source_witness :
  ∃ out, value (search_vectors dot docs_store [1%Q] 4 (Some "a.pdf") 0.1%Q textless_db)
         = inr out
         ∧ ∀ r, r ∈ results out → source r = "a.pdf".
Proof.
  assert ("a.pdf" ≠ "") as Hne by discriminate.
  destruct (proj1 (search_vectors_by_source dot docs_store [1%Q] 4 0.1%Q textless_db)
              "a.pdf" _ eq_refl Hne) as (out & Hv & Hr & _).
  exists out. split; [exact Hv|exact Hr].
Defined.

Lemma QdrantStorage_init_calls (name : string) (D : nat) (db : Qdrant.client) :
  calls (QdrantStorage_init name D db)
  = CallStore OpOpen :: CallStore OpCollectionExists
    :: match db !! name with
       | Some _ => []
       | None => [CallStore OpCreateCollection]
       end.
Proof.
  unfold QdrantStorage_init, client_collection_exists, client_create_collection,
    store_call, mbind, M_bind, mret, M_ret, Qdrant.collection_exists,
    Qdrant.create_collection.
  simpl. destruct (db !! name) as [c|] eqn:E; simpl; [done|]. by rewrite E.
Qed.

(** X10. A [with QdrantStorage() as store] block opens the store first and
    closes it last on every path: when the body returns and when it raises,
    and the body's exception is the block's. *)
Theorem with_block_closes {A : Type} (body : QdrantStorage → M A)
    (db : Qdrant.client) :
  let o := with_QdrantStorage body db in
  let b := body {| collection := "docs_2560"; dim := 2560 |} (opened db) in
  (∃ cs, calls o = CallStore OpOpen :: cs ++ calls b ++ [CallStore OpClose]
         ∧ CallStore OpClose ∉ cs)
  ∧ value o = value b
  ∧ store o = store b
  ∧ is_Some (opened db !! "docs_2560").
Proof.
  cbv zeta.
  destruct (with_QdrantStorage_outcome body db) as (Hv & Hs & Hc).
  rewrite Hv, Hs, Hc, QdrantStorage_init_calls. split_and!; [|done|done|].
  - eexists. split; [reflexivity|].
    destruct (db !! "docs_2560"); rewrite !not_elem_of_cons; split_and!;
      try discriminate; apply not_elem_of_nil.
  - destruct (opened_lookup db) as (c & -> & _). by eexists.
Qed.

(** ** Loading a document *)

Lemma blank_rev_app (s acc : string) :
  Py.blank (String.rev_app s acc) = Py.blank s && Py.blank acc.
Proof.
  revert acc. induction s as [|c s IH]; intros acc; simpl; [done|].
  rewrite IH. simpl. destruct (Py.isspace c), (Py.blank s); done.
Qed.

Lemma blank_rev (s : string) : Py.blank (String.rev s) = Py.blank s.
Proof. unfold String.rev. rewrite blank_rev_app. simpl. by rewrite andb_true_r. Qed.

Lemma blank_lstrip (s : string) : Py.blank (Py.lstrip s) = Py.blank s.
Proof.
  induction s as [|c s IH]; simpl; [done|].
  destruct (Py.isspace c) eqn:E; simpl; [done|]. by rewrite E.
Qed.

Lemma blank_rstrip (s : string) : Py.blank (Py.rstrip s) = Py.blank s.
Proof. unfold Py.rstrip. by rewrite blank_rev, blank_lstrip, blank_rev. Qed.

Lemma lstrip_empty_blank (s : string) : Py.lstrip s = "" → Py.blank s = true.
Proof.
  induction s as [|c s IH]; simpl; [done|].
  destruct (Py.isspace c); [done|discriminate].
Qed.

Lemma rev_app_empty (s acc : string) : String.rev_app s acc = "" → s = "" ∧ acc = "".
Proof.
  revert acc. induction s as [|c s IH]; intros acc; simpl; [done|].
  intros [_ ?]%IH. discriminate.
Qed.

Lemma rstrip_empty_blank (s : string) : Py.rstrip s = "" → Py.blank s = true.
Proof.
  unfold Py.rstrip, String.rev. intros [H _]%rev_app_empty.
  apply lstrip_empty_blank in H. by rewrite blank_rev_app, andb_true_r in H.
Qed.

(** [not t.strip()] holds exactly for the strings of whitespace. *)
Lemma strip_empty_iff (t : string) : Py.strip t = "" ↔ Py.blank t = true.
Proof.
  split; [|apply strip_blank].
  unfold Py.strip. intros H%rstrip_empty_blank. by rewrite blank_lstrip in H.
Qed.

Lemma all_blank_forallb (texts : list string) :
  forallb (λ t, negb (truthy (Py.strip t))) texts = forallb Py.blank texts.
Proof.
  induction texts as [|t texts IH]; simpl; [done|]. rewrite IH. f_equal.
  unfold truthy. rewrite negb_involutive.
  destruct (Py.blank t) eqn:E.
  - apply bool_decide_eq_true, strip_empty_iff, E.
  - apply bool_decide_eq_false. intros H%strip_empty_iff. congruence.
Qed.

(** X11. The load step. Without "pdf_path" in the event it raises KeyError
    before anything is read. Otherwise it reads the PDF once, leaves the
    storage alone and passes on the reader's exception; it raises the no-text
    error exactly when every extracted text is absent, empty or whitespace;
    else it returns the chunks of all the non-empty texts in page order, under
    the event's source id or, without one, the path. *)
Theorem load_event (split_text : string → list string) (svc : services)
    (ev : ingest_event) (db : Qdrant.client) :
  let o := _load split_text svc ev db in
  store o = db
  ∧ match ev_pdf_path ev with
    | None => value o = inl (KeyError "pdf_path") ∧ calls o = []
    | Some path =>
        calls o = [CallReader path]
        ∧ value o
          = match load_data svc path with
            | inl e => inl e
            | inr docs =>
                if forallb Py.blank (kept_texts docs)
                then inl (ValueError ("No text extracted from " +:+ path
                           +:+ ". The PDF might be a scanned image or empty."))
                else inr {| chunks := concat (split_text <$> kept_texts docs);
                            source_id := default path (ev_source_id ev) |}
            end
    end.
Proof.
  cbv zeta. unfold _load, load_and_chunk_pdf, external, lift, raise,
    mbind, M_bind, mret, M_ret.
  destruct (ev_pdf_path ev) as [path|]; simpl; [|done].
  destruct (load_data svc path) as [e|docs]; simpl; [done|].
  rewrite all_blank_forallb.
  assert (bool_decide (kept_texts docs = []) || forallb Py.blank (kept_texts docs)
          = forallb Py.blank (kept_texts docs)) as ->.
  { destruct (kept_texts docs); [done|]. by rewrite bool_decide_eq_false_2. }
  by destruct (forallb Py.blank (kept_texts docs)).
Qed.

(** ** Storing the chunks *)

















(** ** The query handler, step by step *)

(** Opening the store keeps the records of every collection. *)
Lemma opened_collection_points (db : Qdrant.client) (name : string) :
  collection_points (opened db) name = collection_points db name.
Proof.
  unfold opened, collection_points. rewrite QdrantStorage_init_store.
  destruct (db !! "docs_2560") as [c|] eqn:E; [done|].
  destruct (decide (name = "docs_2560")) as [->|Hne].
  - by rewrite lookup_insert_eq, E.
  - by rewrite lookup_insert_ne.
Qed.

(** What [_search] does when the question cannot be embedded. *)
Lemma _search_unembedded (similarity : embedding → embedding → Q) (svc : services)
    (question : string) (top_k : Z) (db : Qdrant.client) (e : exn) :
  embeddings_create svc EMBED_MODEL [question] = inl e
  ∨ embeddings_create svc EMBED_MODEL [question] = inr [] ∧ e = IndexError →
  _search similarity svc question top_k db
  = Outcome [CallEmbeddings EMBED_MODEL [question]] db (inl e).
Proof.
  unfold _search, embed_texts, external, mbind, M_bind.
  intros [H|[H ->]]; rewrite H; done.
Qed.

(** The calls of [_search]: the embedding of the question, then, with a
    vector for it, the store opened, queried once and closed. *)
Lemma _search_calls (similarity : embedding → embedding → Q) (svc : services)
    (question : string) (top_k : Z) (db : Qdrant.client)
    (v : embedding) (vs : list embedding) :
  embeddings_create svc EMBED_MODEL [question] = inr (v :: vs) →
  calls (_search similarity svc question top_k db)
  = CallEmbeddings EMBED_MODEL [question]
    :: calls (QdrantStorage_init "docs_2560" 2560 db)
    ++ [CallStore OpQueryPoints; CallStore OpClose].
Proof.
  intros Hemb. unfold _search, embed_texts.
  rewrite calls_bind, value_external, store_external, Hemb.
  unfold external at 1. cbn [calls app lookup list_lookup].
  rewrite calls_bind, calls_lift, value_lift, store_lift. cbn [app].
  rewrite calls_bind.
  destruct (with_QdrantStorage_outcome
              (λ store, search_vectors similarity store v 500 None 0.1%Q) db)
    as (Hv & _ & Hc).
  rewrite Hc, Hv.
  destruct (search_vectors_value similarity {| collection := "docs_2560"; dim := 2560 |}
              v 500 None 0.1%Q (opened db)) as (_ & Hcs & _).
  rewrite Hcs. clear. f_equal.
  destruct (value _); unfold mret, M_ret; cbn [calls]; by rewrite app_nil_r.
Qed.

(** The handler with a question, as the steps it runs. *)
Lemma rag_query_pdf_ai_steps (similarity : embedding → embedding → Q)
    (svc : services) (ev : query_event) (db : Qdrant.client) (question : string) :
  ev_question ev = Some question → question ≠ "" →
  let s := _search similarity svc question (default 15%Z (ev_top_k ev)) db in
  match value s with
  | inl e => rag_query_pdf_ai similarity svc ev db = Outcome (calls s) (store s) (inl e)
  | inr found =>
      ∃ prompt,
        rag_query_pdf_ai similarity svc ev db
        = Outcome (calls s ++ [CallInfer prompt]) (store s)
            match infer svc prompt with
            | inl e => inl e
            | inr res => inr {| answer := Py.strip res;
                                num_contexts := length (contexts found);
                                query_sources := sources found |}
            end
  end.
Proof.
  intros H Hne. cbv zeta. unfold rag_query_pdf_ai. rewrite H. unfold truthy.
  rewrite bool_decide_eq_false_2 by done. cbn [negb].
  unfold external, mbind, M_bind, mret, M_ret. cbv beta zeta.
  destruct (_search similarity svc question (default 15%Z (ev_top_k ev)) db)
    as [cs st [e|found]]; cbn [value calls store]; [done|].
  match goal with |- context [infer svc ?p] => exists p end.
  destruct (infer svc _); cbn [value calls store]; by rewrite ?app_nil_r.
Qed.

Lemma length_elements_list_to_set (l : list string) :
  length (elements (list_to_set l : gset string)) ≤ length l.
Proof.
  induction l as [|x l IH]; [done|]. cbn [list_to_set foldr length].
  destruct (decide (x ∈ (list_to_set l : gset string))) as [Hin|Hin].
  - assert ({[x]} ∪ list_to_set l = (list_to_set l : gset string)) as -> by set_solver.
    lia.
  - rewrite elements_union_singleton by done. cbn [length]. lia.
Qed.

(** The sizes of what [retrieval] returns. *)
Lemma retrieval_sizes (question : string) (top_k : Z) (results : list candidate) :
  let r := retrieval question top_k results in
  length (contexts r) ≤ length results
  ∧ ((0 ≤ top_k)%Z → (Z.of_nat (length (contexts r)) ≤ top_k)%Z)
  ∧ length (sources r) ≤ length (contexts r)
  ∧ NoDup (sources r).
Proof.
  cbv zeta. unfold retrieval. cbn [contexts sources].
  rewrite length_fmap, length_slice_to, length_ranked. split_and!.
  - destruct (0 <=? top_k)%Z; lia.
  - intros Hk. rewrite (proj2 (Z.leb_le 0 top_k) Hk). lia.
  - etrans; [apply length_elements_list_to_set|].
    by rewrite length_fmap, length_slice_to, length_ranked.
  - apply NoDup_elements.
Qed.



(** X17. The query side never writes records: after [_search], and after the
    whole handler, every collection holds the records it held before (opening
    the store may create the collection, empty), and no upsert, delete or
    collection removal is among the calls. *)
Theorem query_never_writes (similarity : embedding → embedding → Q)
    (svc : services) (ev : query_event) (question : string) (top_k : Z)
    (db : Qdrant.client) :
  let s := _search similarity svc question top_k db in
  let o := rag_query_pdf_ai similarity svc ev db in
  (∀ name, collection_points (store s) name = collection_points db name)
  ∧ (∀ name, collection_points (store o) name = collection_points db name)
  ∧ (∀ op, CallStore op ∈ calls s ++ calls o →
       op ∉ [OpUpsert; OpDelete; OpDeleteCollection]).
Proof.
  cbv zeta.
  assert (∀ q k,
    (∀ name, collection_points (store (_search similarity svc q k db)) name
             = collection_points db name)
    ∧ (∀ op, CallStore op ∈ calls (_search similarity svc q k db) →
         op ∉ [OpUpsert; OpDelete; OpDeleteCollection])) as Hsearch.
  { intros q k.
    destruct (embeddings_create svc EMBED_MODEL [q]) as [e|[|v vs]] eqn:Hemb.
    - rewrite (_search_unembedded similarity svc q k db e) by by left.
      cbn [store calls]. split; [done|].
      intros op [?|?%elem_of_nil]%elem_of_cons; [discriminate|done].
    - rewrite (_search_unembedded similarity svc q k db IndexError) by by right.
      cbn [store calls]. split; [done|].
      intros op [?|?%elem_of_nil]%elem_of_cons; [discriminate|done].
    - destruct (_search_outcome similarity svc q k db v vs Hemb) as (? & _ & _ & _ & Hst).
      rewrite Hst, (_search_calls similarity svc q k db v vs Hemb),
        QdrantStorage_init_calls.
      split; [intros; apply opened_collection_points|].
      intros op Hop.
      assert (op ∈ [OpOpen; OpCollectionExists; OpCreateCollection;
                    OpQueryPoints; OpClose]) as Hin.
      { destruct (db !! "docs_2560"); cbn [app] in Hop;
          repeat (apply elem_of_cons in Hop as [Heq|Hop];
                  [first [discriminate Heq | injection Heq as <-; set_solver]|]);
          by apply elem_of_nil in Hop. }
      intros Hbad. set_solver. }
  split; [apply Hsearch|].
  assert ((∀ name, collection_points (store (rag_query_pdf_ai similarity svc ev db)) name
                   = collection_points db name)
          ∧ (∀ op, CallStore op ∈ calls (rag_query_pdf_ai similarity svc ev db) →
               op ∉ [OpUpsert; OpDelete; OpDeleteCollection])) as [Hst Hcalls].
  { destruct (ev_question ev) as [q|] eqn:Hq.
    2: { unfold rag_query_pdf_ai. rewrite Hq. cbn. split; [done|].
         by intros op ?%elem_of_nil. }
    destruct (decide (q = "")) as [->|Hne].
    { unfold rag_query_pdf_ai. rewrite Hq. cbn. split; [done|].
      by intros op ?%elem_of_nil. }
    pose proof (rag_query_pdf_ai_steps similarity svc ev db q Hq Hne) as Hs.
    cbv zeta in Hs.
    destruct (Hsearch q (default 15%Z (ev_top_k ev))) as [Hs1 Hs2].
    destruct (value (_search similarity svc q (default 15%Z (ev_top_k ev)) db))
      as [e|found].
    - rewrite Hs. cbn [store calls]. by split.
    - destruct Hs as [prompt ->]. cbn [store calls]. split; [done|].
      intros op [Hop|Hop]%elem_of_app; [by apply Hs2|].
      apply elem_of_cons in Hop as [?|?%elem_of_nil]; [discriminate|done]. }
  split; [done|].
  intros op [Hop|Hop]%elem_of_app; [by eapply (proj2 (Hsearch _ _))|by apply Hcalls].
Qed.



(** ** The table of the visualization *)

Lemma length_substring_le (n : nat) (s : string) :
  String.length (String.substring 0 n s) ≤ n.
Proof.
  revert s. induction n as [|n IH]; intros [|c s]; cbn; try lia.
  specialize (IH s). lia.
Qed.

Lemma string_length_app (a b : string) :
  String.length (a +:+ b) = String.length a + String.length b.
Proof. induction a as [|c a IH]; [done|]. rewrite string_app_cons. cbn. by rewrite IH. Qed.

(** The preview of a document row: never empty, 103 characters at most. *)
Lemma text_preview_length (payload : gmap string string) :
  0 < String.length (text_preview payload) ≤ 103.
Proof.
  unfold text_preview. destruct (payload !! "text") as [t|]; [|cbn; lia].
  destruct (truthy t); [|cbn; lia].
  rewrite string_length_app. pose proof (length_substring_le 100 t). cbn. lia.
Qed.

(** X19. The table of [get_visualization_data]. An empty collection gives
    [None], also when a query vector is passed. Otherwise the table has one
    vector and one row for each record, in the order of the ids, and after
    them the query vector and its row when there is a query vector; a document
    row has type "Document", size 5 and a preview that is not empty and has
    103 characters at most; the storage is left as it was. *)
Theorem visualization_table (db : Qdrant.client) (c : Qdrant.collection)
    (fuel : nat) (query_vector : option embedding) (query_text : option string) :
  db !! "docs_2560" = Some c →
  size (Qdrant.points c) / 100 < fuel →
  let o := get_visualization_table fuel query_vector query_text db in
  let records := Qdrant.listing c in
  store o = db
  ∧ (Qdrant.points c = ∅ → value o = inr (Some None))
  ∧ (Qdrant.points c ≠ ∅ →
       ∃ vectors rows,
         value o = inr (Some (Some (vectors, rows)))
         ∧ length vectors = length rows
         ∧ length rows = size (Qdrant.points c) + match query_vector with
                                                   | Some _ => 1
                                                   | None => 0
                                                   end
         ∧ (∀ i k v pl, records !! i = Some (k, (v, pl)) →
              vectors !! i = Some (Some v)
              ∧ ∃ r, rows !! i = Some r
                     ∧ row_source r = default "Unknown" (pl ≫= (λ d, d !! "source_id"))
                     ∧ row_type r = "Document" ∧ row_size r = 5
                     ∧ 0 < String.length (row_text r) ≤ 103)
         ∧ (∀ q, query_vector = Some q →
              vectors !! length records = Some (Some q)
              ∧ rows !! length records = Some (query_row query_text))).
Proof.
  intros Hc Hfuel. cbv zeta.
  destruct (get_visualization_points_outcome db c fuel Hc Hfuel) as [Hv Hs].
  unfold get_visualization_table.
  rewrite value_bind, store_bind, Hv, Hs. unfold mret at 1 2, M_ret. cbn [value store].
  split; [done|]. cbn [fmap option_fmap option_map].
  pose proof (length_listing c) as Hlen.
  split.
  - intros Hempty. rewrite Hempty in Hlen. rewrite map_size_empty in Hlen.
    destruct (Qdrant.listing c); [done|discriminate].
  - intros Hne.
    assert (Qdrant.listing c ≠ []) as Hl.
    { intros E. rewrite E in Hlen. cbn in Hlen. symmetry in Hlen.
      by apply map_size_empty_inv in Hlen. }
    rewrite bool_decide_eq_false_2
      by (destruct (Qdrant.listing c); [done|discriminate]).
    set (points := Qdrant.to_point true <$> Qdrant.listing c).
    assert (length points = size (Qdrant.points c)) as Hpts
      by (unfold points; by rewrite length_fmap).
    exists (viz_table points query_vector query_text).1,
           (viz_table points query_vector query_text).2.
    split; [by destruct (viz_table _ _ _)|].
    unfold viz_table. split_and!.
    + destruct query_vector; cbn [fst snd];
        by rewrite ?length_app, !length_fmap.
    + destruct query_vector; cbn [fst snd];
        rewrite ?length_app, length_fmap, Hpts; cbn [length]; lia.
    + intros i k v pl Hi.
      assert (points !! i = Some (Qdrant.to_point true (k, (v, pl)))) as Hp
        by (unfold points; by rewrite list_lookup_fmap, Hi).
      assert ((Qdrant.vector <$> points) !! i = Some (Some v)) as Hvec
        by (by rewrite list_lookup_fmap, Hp).
      assert ((document_row <$> points) !! i
              = Some (document_row (Qdrant.to_point true (k, (v, pl))))) as Hrow
        by (by rewrite list_lookup_fmap, Hp).
      assert (i < length points) as Hlt by (by eapply lookup_lt_Some).
      split.
      * destruct query_vector; cbn [fst];
          [rewrite lookup_app_l by (by rewrite length_fmap)|]; done.
      * eexists. split.
        { destruct query_vector; cbn [snd];
            [rewrite lookup_app_l by (by rewrite length_fmap)|]; exact Hrow. }
        unfold document_row, Qdrant.to_point.
        cbn [row_source row_text row_type row_size Qdrant.payload fst snd].
        split_and!; try done; [|apply text_preview_length..].
        by destruct pl.
    + intros q ->. cbn [fst snd]. rewrite Hlen, <- Hpts. split.
      * rewrite lookup_app_r by (by rewrite length_fmap).
        by rewrite length_fmap, Nat.sub_diag.
      * rewrite lookup_app_r by (by rewrite length_fmap).
        by rewrite length_fmap, Nat.sub_diag.
Qed.

(** The table of the collection with textless records and a query. *)
Lemma visualization_table_witness :
  ∃ vectors rows,
    value (get_visualization_table 1 (Some [1%Q]) (Some "capital") textless_db)
    = inr (Some (Some (vectors, rows)))
    ∧ length vectors = length rows.
Proof.
  assert (textless_db !! "docs_2560"
          = Some (default {| Qdrant.config := {| Qdrant.size := 0;
                                                 Qdrant.distance := Qdrant.COSINE |};
                             Qdrant.points := ∅ |}
                    (textless_db !! "docs_2560"))) as Hc by reflexivity.
  assert (size (collection_points textless_db "docs_2560") / 100 < 1) as Hfuel
    by (vm_compute; lia).
  destruct (visualization_table textless_db _ 1 (Some [1%Q]) (Some "capital") Hc Hfuel)
    as (_ & _ & Hrows).
  destruct Hrows as (vectors & rows & Hv & Hlen & _).
  { intros Hempty. apply (f_equal size) in Hempty. vm_compute in Hempty. discriminate. }
  exists vectors, rows. split; [exact Hv|exact Hlen].
Defined.

(** ** The question form *)

(** X20. The event the question form sends, top_k being in the range of its
    number input, passes the question check of the query handler: the handler
    starts by embedding the stripped question, and whenever it answers, it has
    used at most top_k contexts, so 20 at most. *)
Theorem form_event_answered (similarity : embedding → embedding → Q)
    (svc : services) (db : Qdrant.client) (submitted : bool) (question : string)
    (top_k : Z) (ev : query_event) :
  query_form_event submitted question top_k = Some ev →
  (1 ≤ top_k ≤ 20)%Z →
  let o := rag_query_pdf_ai similarity svc ev db in
  Py.strip question ≠ ""
  ∧ (∃ rest, calls o = CallEmbeddings EMBED_MODEL [Py.strip question] :: rest)
  ∧ ∀ res, value o = inr res →
      (Z.of_nat (num_contexts res) ≤ top_k)%Z ∧ num_contexts res ≤ 20.
Proof.
  intros Hev Hk. cbv zeta. unfold query_form_event in Hev.
  destruct submitted; [|done]. cbn [andb] in Hev.
  destruct (truthy (Py.strip question)) eqn:Ht; [|done].
  injection Hev as <-.
  assert (Py.strip question ≠ "") as Hne.
  { unfold truthy in Ht. apply negb_true_iff in Ht. by apply bool_decide_eq_false in Ht. }
  split; [done|]. split.
  { by apply question_embedded_first. }
  intros res Hres.
  pose proof (rag_query_pdf_ai_steps similarity svc
                {| ev_question := Some (Py.strip question); ev_top_k := Some top_k |}
                db (Py.strip question) eq_refl Hne) as Hs.
  cbv zeta in Hs.
  change (default 15%Z (ev_top_k _)) with top_k in Hs.
  destruct (embeddings_create svc EMBED_MODEL [Py.strip question]) as [e|[|v vs]] eqn:Hemb.
  - rewrite (_search_unembedded similarity svc _ top_k db e) in Hs by by left.
    cbn [value] in Hs. by rewrite Hs in Hres.
  - rewrite (_search_unembedded similarity svc _ top_k db IndexError) in Hs by by right.
    cbn [value] in Hs. by rewrite Hs in Hres.
  - destruct (_search_outcome similarity svc (Py.strip question) top_k db v vs Hemb)
      as (points & _ & _ & Hv & _).
    rewrite Hv in Hs. destruct Hs as [prompt Hs]. rewrite Hs in Hres. cbn [value] in Hres.
    destruct (infer svc prompt); [done|]. injection Hres as <-. cbn [num_contexts].
    destruct (retrieval_sizes (Py.strip question) top_k (collect_results points))
      as (_ & Hle & _).
    unfold retrieval in Hle. cbn [contexts] in Hle.
    specialize (Hle ltac:(lia)). unfold retrieval. cbn [contexts]. lia.
Qed.

(** The form submitted with a question between spaces and top_k = 5. *)
Lemma form_event_answered_witness :
  Py.strip "  capital  " ≠ ""
  ∧ ∃ rest, calls (rag_query_pdf_ai dot unit_embeddings
                     {| ev_question := Some (Py.strip "  capital  ");
                        ev_top_k := Some 5%Z |} textless_db)
            = CallEmbeddings EMBED_MODEL [Py.strip "  capital  "] :: rest.
Proof.
  assert (1 ≤ 5 ≤ 20)%Z as Hk by lia.
  destruct (form_event_answered dot unit_embeddings textless_db true "  capital  " 5
              _ eq_refl Hk) as (Hne & Hcs & _).
  split; [exact Hne|exact Hcs].
Defined.

(** ** Waiting for a run *)

Section wait_facts.

Context {J : Type} (fetch_runs : nat → wait_exn + list (run J)) (time : nat → Q).

(** Polls that settle nothing, each before the deadline, are passed. *)
Lemma wait_loop_pending (start timeout_s : Q) (k : nat) :
  ∀ (i : nat) (last_status : option string) (fuel : nat),
    (∀ j, i ≤ j < i + k →
       pending (fetch_runs j) = true ∧ (time (S j) - start <= timeout_s)%Q) →
    ∃ last_status',
      wait_loop fetch_runs time (k + fuel) start timeout_s i last_status
      = wait_loop fetch_runs time fuel start timeout_s (i + k) last_status'.
Proof.
  induction k as [|k IH]; intros i last_status fuel Hpend.
  { exists last_status. by rewrite Nat.add_0_r. }
  destruct (Hpend i) as [Hp Ht]; [lia|].
  cbn [Nat.add wait_loop]. unfold pending in Hp.
  destruct (fetch_runs i) as [e|[|r rest]]; [done| |].
  - destruct (Qlt_le_dec timeout_s (time (S i) - start)) as [Hlt|_]; [lra|].
    destruct (IH (S i) last_status fuel) as [l' Hl'].
    { intros j Hj. apply Hpend. lia. }
    exists l'. rewrite Hl'. f_equal. lia.
  - apply andb_true_iff in Hp as [Hs%negb_true_iff Hf%negb_true_iff].
    rewrite Hs, Hf.
    destruct (Qlt_le_dec timeout_s (time (S i) - start)) as [Hlt|_]; [lra|].
    destruct (IH (S i) (or_last (run_status r) last_status) fuel) as [l' Hl'].
    { intros j Hj. apply Hpend. lia. }
    exists l'. rewrite Hl'. f_equal. lia.
Qed.

(** A poll whose check reads the clock past the deadline ends the loop. *)
Lemma wait_loop_leaves (start timeout_s : Q) (fuel : nat) :
  ∀ (i : nat) (last_status : option string),
    (timeout_s < time (i + S fuel) - start)%Q →
    is_Some (wait_loop fetch_runs time (S fuel) start timeout_s i last_status).
Proof.
  induction fuel as [|fuel IH]; intros i last_status Hlate.
  - rewrite Nat.add_1_r in Hlate. cbn [wait_loop].
    destruct (fetch_runs i) as [e|[|r rest]]; [done| |].
    + by destruct (Qlt_le_dec timeout_s (time (S i) - start)) as [_|Hle]; [|lra].
    + destruct (status_in _ success_statuses); [done|].
      destruct (status_in _ failure_statuses); [done|].
      by destruct (Qlt_le_dec timeout_s (time (S i) - start)) as [_|Hle]; [|lra].
  - assert (∀ l, is_Some (wait_loop fetch_runs time (S fuel) start timeout_s (S i) l))
      as Hrec.
    { intros l. apply IH. by replace (S i + S fuel) with (i + S (S fuel)) by lia. }
    remember (S fuel) as fuel' eqn:E. cbn [wait_loop].
    destruct (fetch_runs i) as [e|[|r rest]]; [done| |].
    + by destruct (Qlt_le_dec timeout_s (time (S i) - start)).
    + destruct (status_in _ success_statuses); [done|].
      destruct (status_in _ failure_statuses); [done|].
      by destruct (Qlt_le_dec timeout_s (time (S i) - start)).
Qed.

Lemma clock_advances (δ : Q) (n : nat) :
  (∀ i, time i + δ <= time (S i))%Q →
  (time 0%nat + inject_Z (Z.of_nat n) * δ <= time n)%Q.
Proof.
  intros Hstep. induction n as [|n IH].
  { change (inject_Z (Z.of_nat 0)) with 0%Q. lra. }
  specialize (Hstep n).
  rewrite Nat2Z.inj_succ. unfold Z.succ. rewrite inject_Z_plus.
  change (inject_Z 1) with 1%Q. lra.
Qed.

End wait_facts.

(** X21. [wait_for_run_output] is settled by the first poll that shows a first
    run with a success or a failure status, every poll before it showing no
    run or a first run with another status, each before the deadline. For a
    success status it returns the output of that run, the empty dict for a run
    without one; for a failure status it raises RuntimeError with the status.
    Only the first run of the list is read, and the deadline is not looked at
    on the settling poll. *)
Theorem wait_first_verdict {J : Type} (fetch_runs : nat → wait_exn + list (run J))
    (time : nat → Q) (timeout_s : Q) (n fuel : nat)
    (r : run J) (rest : list (run J)) (s : string) :
  (∀ i, i < n →
     pending (fetch_runs i) = true ∧ (time (S i) - time 0%nat <= timeout_s)%Q) →
  fetch_runs n = inr (r :: rest) →
  run_status r = Some s →
  s ∈ success_statuses ++ failure_statuses →
  n < fuel →
  wait_for_run_output fetch_runs time fuel timeout_s
  = Some (if bool_decide (s ∈ success_statuses)
          then inr (default ∅ (run_output r))
          else inl (RuntimeError ("Function run " +:+ s))).
Proof.
  intros Hpend Hn Hs Hin Hfuel. unfold wait_for_run_output.
  destruct (wait_loop_pending fetch_runs time (time 0) timeout_s n 0 None (fuel - n))
    as [l Hl].
  { intros j Hj. apply Hpend. lia. }
  replace (n + (fuel - n)) with fuel in Hl by lia. rewrite Hl. cbn [Nat.add].
  destruct (fuel - n) as [|fuel'] eqn:E; [lia|].
  cbn [wait_loop]. rewrite Hn, Hs. cbn [status_in str_of_status default].
  destruct (bool_decide (s ∈ success_statuses)) eqn:Hsucc; [done|].
  apply bool_decide_eq_false in Hsucc.
  apply elem_of_app in Hin as [?|Hin]; [done|].
  by rewrite (bool_decide_eq_true_2 _ Hin).
Qed.

(** A run that is listed as completed on the third poll. *)
Lemma wait_first_verdict_witness :
  wait_for_run_output answer_on_third_poll half_seconds 3 120
  = Some (inr {[ "answer" := "42" ]}).
Proof.
  assert (∀ i, i < 2 →
            pending (answer_on_third_poll i) = true
            ∧ (half_seconds (S i) - half_seconds 0 <= 120)%Q) as Hpend.
  { intros [|[|i]] Hi; [split; [reflexivity|by vm_compute]..|lia]. }
  assert ("Completed" ∈ success_statuses ++ failure_statuses) as Hin
    by compute_done.
  assert (2 < 3) as Hfuel by lia.
  exact (wait_first_verdict answer_on_third_poll half_seconds 120 2 3 _ _ "Completed"
           Hpend eq_refl eq_refl Hin Hfuel).
Defined.

(** X22. With a clock that advances by at least [δ] > 0 from one reading to
    the next (the sleep between two polls), [wait_for_run_output] leaves its
    loop after at most [fuel] polls for every [fuel] with timeout_s < fuel *
    δ, whatever the API answers: it returns or raises. *)
Theorem wait_terminates {J : Type} (fetch_runs : nat → wait_exn + list (run J))
    (time : nat → Q) (timeout_s δ : Q) (fuel : nat) :
  (0 <= timeout_s)%Q →
  (∀ i, time i + δ <= time (S i))%Q →
  (timeout_s < inject_Z (Z.of_nat fuel) * δ)%Q →
  ∃ r, wait_for_run_output fetch_runs time fuel timeout_s = Some r.
Proof.
  intros Hpos Hstep Hfuel. unfold wait_for_run_output.
  destruct fuel as [|fuel].
  { change (inject_Z (Z.of_nat 0)) with 0%Q in Hfuel. lra. }
  apply (wait_loop_leaves fetch_runs time (time 0) timeout_s fuel 0 None).
  pose proof (clock_advances time δ (S fuel) Hstep). cbn [Nat.add]. lra.
Qed.

(** The defaults of the wait, 120 seconds and half a second between two
    polls: 241 polls at most. *)
Lemma wait_terminates_witness :
  ∃ r, wait_for_run_output no_runs half_seconds 241 120 = Some r.
Proof.
  assert (0 <= 120)%Q as Hpos by (by vm_compute).
  assert (∀ i, half_seconds i + (1 # 2) <= half_seconds (S i))%Q as Hstep.
  { intros i. unfold half_seconds.
    rewrite Nat2Z.inj_succ. unfold Z.succ. rewrite inject_Z_plus.
    change (inject_Z 1) with 1%Q. lra. }
  assert (120 < inject_Z (Z.of_nat 241) * (1 # 2))%Q as Hfuel by (by vm_compute).
  exact (wait_terminates no_runs half_seconds 120 (1 # 2) 241 Hpos Hstep Hfuel).
Defined.
